(** * DictDataBase: partial reads and writes over an index cache

    A shallow embedding of [dictdatabase/io_unsafe.py].  Python [str] is
    [string] (one [ascii] per character), [bytes] is [list Byte.byte], Python
    integers are [Z].  Functions that touch the disk run in a state-and-
    exception monad over a file system; an exception leaves the file system as
    it was when it was raised, as in Python.  The libraries the module calls
    ([hashlib], [zlib], [orjson], [json], the text codec) and the scanner of
    [dictdatabase/utils.py] are interfaces. *)

From Stdlib Require Import ZArith Lia String Ascii.
From Stdlib.Strings Require Import Byte.
From stdpp Require Import base option gmap strings list pretty.

Local Open Scope Z_scope.

(** ** Python strings *)

Definition bytes : Type := list Byte.byte.

(** [len(s)] *)
Definition len (s : string) : Z := Z.of_nat (String.length s).

(** How a slice bound is brought into [0, n]: a negative bound counts from the
    end. *)
Definition clamp_index (n i : Z) : Z :=
  if i <? 0 then Z.max (i + n) 0 else Z.min i n.

(** [s[start:stop]] *)
Definition slice (s : string) (start stop : Z) : string :=
  let a := clamp_index (len s) start in
  let b := clamp_index (len s) stop in
  String.substring (Z.to_nat a) (Z.to_nat (b - a)) s.

(** [s[:stop]] *)
Definition slice_to (s : string) (stop : Z) : string := slice s 0 stop.

(** [s[start:]] *)
Definition slice_from (s : string) (start : Z) : string := slice s start (len s).

(** [s[i]]; [None] stands for [IndexError]. *)
Definition str_index (s : string) (i : Z) : option ascii :=
  let j := if i <? 0 then i + len s else i in
  if (0 <=? j) && (j <? len s) then String.get (Z.to_nat j) s else None.

(** [s.replace(old, new)] for a one-character [old]. *)
Fixpoint str_replace (old : ascii) (new : string) (s : string) : string :=
  match s with
  | EmptyString => EmptyString
  | String c s' =>
      if Ascii.eqb c old then new +:+ str_replace old new s'
      else String c (str_replace old new s')
  end.

(** [n * s] *)
Definition str_mul (n : Z) (s : string) : string :=
  Nat.iter (Z.to_nat n) (String.append s) EmptyString.

(** The last character, for telling paths apart by their extension. *)
Fixpoint last_char_of (s : string) : option ascii :=
  match s with
  | EmptyString => None
  | String c EmptyString => Some c
  | String _ s' => last_char_of s'
  end.

Definition newline : ascii := "010"%char.
Definition dquote : ascii := "034"%char.
Definition cr : ascii := "013"%char.

(** What reading a file in text mode does to the line ends, [newline=None]:
    a carriage return with the line feed after it, and a carriage return on
    its own, are read as one line feed. *)
Fixpoint universal_newlines (s : string) : string :=
  match s with
  | EmptyString => EmptyString
  | String c s' =>
      if bool_decide (c = cr) then
        match s' with
        | String c' s'' =>
            if bool_decide (c' = newline)
            then String newline (universal_newlines s'')
            else String newline (universal_newlines s')
        | EmptyString => String newline EmptyString
        end
      else String c (universal_newlines s')
  end.

(** ** Exceptions and results *)

Inductive exn : Type :=
  | FileExistsError
  | FileNotFoundError
  | PermissionError
  | KeyError
  | IndexError
  | UnicodeDecodeError
  | ZlibError
  | JSONDecodeError
  | JSONEncodeError.

Inductive result (A : Type) : Type :=
  | Ok (a : A)
  | Raise (e : exn).
Arguments Ok {A} a.
Arguments Raise {A} e.

(** ** The file system *)

(** [files] maps a path to the bytes stored there.  Opening a path of
    [unwritable] for writing raises [PermissionError]. *)
Record fs : Type := Fs {
  files : gmap string bytes;
  unwritable : gset string;
}.

Definition io (A : Type) : Type := fs → result A * fs.

#[export] Instance io_ret : MRet io := λ A a σ, (Ok a, σ).
#[export] Instance io_bind : MBind io := λ A B k m σ,
  match m σ with
  | (Ok a, σ') => k a σ'
  | (Raise e, σ') => (Raise e, σ')
  end.

Definition raise {A : Type} (e : exn) : io A := λ σ, (Raise e, σ).

(** An [if] with no [else]. *)
Definition when (b : bool) (m : io unit) : io unit :=
  if b then m else mret ().

(** A computation that leaves the file system alone. *)
Definition lift {A : Type} (r : result A) : io A := λ σ, (r, σ).

(** A library call that may raise [e]. *)
Definition orelse {A : Type} (e : exn) (o : option A) : io A :=
  match o with Some a => mret a | None => raise e end.

(** [os.path.exists(path)] *)
Definition path_exists (path : string) : io bool :=
  λ σ, (Ok (bool_decide (is_Some (files σ !! path))), σ).

(** [open(path, "rb").read()] *)
Definition read_bytes (path : string) : io bytes :=
  λ σ, match files σ !! path with
       | Some b => (Ok b, σ)
       | None => (Raise FileNotFoundError, σ)
       end.

(** [open(path, "wb").write(b)] *)
Definition write_bytes (path : string) (b : bytes) : io unit :=
  λ σ, if bool_decide (path ∈ unwritable σ) then (Raise PermissionError, σ)
       else (Ok (), Fs (<[path := b]> (files σ)) (unwritable σ)).

(** [os.remove(path)] *)
Definition remove (path : string) : io unit :=
  λ σ, match files σ !! path with
       | Some _ => (Ok (), Fs (delete path (files σ)) (unwritable σ))
       | None => (Raise FileNotFoundError, σ)
       end.

(** ** Configuration and libraries *)

(** [config.indent] is [None], an integer or a string. *)
Inductive indent_cfg : Type :=
  | IndentNone
  | IndentInt (n : Z)
  | IndentStr (s : string).

(** Python truth of [config.indent]. *)
Definition truthy (i : indent_cfg) : bool :=
  match i with
  | IndentNone => false
  | IndentInt n => negb (n =? 0)
  | IndentStr s => negb (String.eqb s EmptyString)
  end.

(** The module [config], read at call time. *)
Record config : Type := Config {
  storage_directory : string;
  use_compression : bool;
  use_orjson : bool;
  indent : indent_cfg;
  sort_keys : bool;
}.

(** An entry of the index file: the list
    [[start_index, end_index, indent_level, indent_with, value_hash]]. *)
Definition index_entry : Type := Z * Z * Z * string * string.

(** The libraries [io_unsafe] imports.  [None] is the library's exception. *)
Class Library : Type := {
  (** a decoded JSON value *)
  jvalue : Type;
  (** [s.encode()] and [b.decode()] *)
  str_encode : string → bytes;
  bytes_decode : bytes → option string;
  (** [hashlib.sha256(b).hexdigest()] *)
  sha256_hexdigest : bytes → string;
  (** [zlib.compress(b, level)] and [zlib.decompress(b)] *)
  zlib_compress : bytes → Z → bytes;
  zlib_decompress : bytes → option bytes;
  (** [orjson.loads(s)] and [orjson.dumps(v, option=o)] on values *)
  orjson_loads : string → option jvalue;
  orjson_dumps : jvalue → Z → option bytes;
  (** [json.dumps(v, indent=i, sort_keys=k)] *)
  json_dumps : jvalue → indent_cfg → bool → option string;
  (** [orjson.dumps] and [orjson.loads] on the index mapping *)
  orjson_dumps_index : gmap string index_entry → bytes;
  orjson_loads_index : bytes → option (gmap string index_entry);
}.

Definition OPT_INDENT_2 : Z := Z.shiftl 1 0.
Definition OPT_SORT_KEYS : Z := Z.shiftl 1 5.

(** The scanner of [dictdatabase/utils.py], which [partial_read] calls. *)
Class Scanner : Type := {
  (** the offset of the key token, [-1] when there is none *)
  find_outermost_json_key_index : string → string → Z;
  (** the offset just past the value that starts at the given offset *)
  seek_index_through_value : string → Z → Z;
  (** the indentation level and unit at the given offset *)
  detect_indentation_in_json_string : string → Z → Z * string;
}.

(** ** The engine *)

(** What [str | bytes] holds. *)
Inductive pydata : Type :=
  | PStr (s : string)
  | PBytes (b : bytes).

Section Engine.
Context {L : Library} {U : Scanner}.
Variable cfg : config.

(** The frozen dataclasses. *)
Record PartialDict : Type := mkPartialDict {
  prefix : string;
  key : string;
  value : jvalue;
  suffix : string;
}.

Record PartialFileHandle : Type := mkPartialFileHandle {
  db_name : string;
  partial_dict : PartialDict;
  indent_level : Z;
  indent_with : string;
  index_data : gmap string index_entry;
}.

(** *** Reading *)

(** Modelled from the spec: the paths [utils.db_paths] resolves ([utils] is not
    among the source files), after the layout of section 6:
    [{storage_root}/{db_name}.json] and [{storage_root}/{db_name}.ddb]. *)
Definition json_path (db_name : string) : string :=
  storage_directory cfg +:+ "/" +:+ db_name +:+ ".json".

(** Modelled from the spec: the compressed representation's path, section 6. *)
Definition ddb_path (db_name : string) : string :=
  storage_directory cfg +:+ "/" +:+ db_name +:+ ".ddb".

(** Modelled from the spec: [utils.db_paths], section 6's
    [resolve(db_name)], which gives
    [(plain_path, plain_exists, compressed_path, compressed_exists)]. *)
Definition db_paths (db_name : string) : io (string * bool * string * bool) :=
  json_exists ← path_exists (json_path db_name);
  ddb_exists ← path_exists (ddb_path db_name);
  mret (json_path db_name, json_exists, ddb_path db_name, ddb_exists).

(** The type of [read_file]'s result: [bytes] if [as_bytes], else [str]. *)
Definition file_data (as_bytes : bool) : Type :=
  if as_bytes then bytes else string.

(** [open(path, "r").read()]: the bytes of the file decoded, with the line
    ends as a text-mode read gives them.  The encoding of the text mode is the
    locale's; it is taken to be that of [decode()]. *)
Definition read_text (path : string) : io string :=
  b ← read_bytes path;
  s ← orelse UnicodeDecodeError (bytes_decode b);
  mret (universal_newlines s).

(** The plain file is read in mode ["rb"] or ["r"], the compressed one in
    mode ["rb"] and then decoded.  The last test of the source,
    [if ddb_exists], always holds where it stands, so its branch is the
    [else] here. *)
Definition read_file (db_name : string) (as_bytes : bool) : io (file_data as_bytes) :=
  '(json_path, json_exists, ddb_path, ddb_exists) ← db_paths db_name;
  if json_exists && ddb_exists then raise FileExistsError
  else if negb json_exists && negb ddb_exists then raise FileNotFoundError
  else if json_exists then
    match as_bytes return io (file_data as_bytes) with
    | true => read_bytes json_path
    | false => read_text json_path
    end
  else
    b ← read_bytes ddb_path;
    data_bytes ← orelse ZlibError (zlib_decompress b);
    match as_bytes return io (file_data as_bytes) with
    | true => mret data_bytes
    | false => orelse UnicodeDecodeError (bytes_decode data_bytes)
    end.

(** [orjson.loads] on [bytes]: the input has to be valid UTF-8 and is then
    parsed as its text is; either failure is the library's
    [JSONDecodeError]. *)
Definition orjson_loads_bytes (b : bytes) : option jvalue :=
  bytes_decode b ≫= orjson_loads.

(** Lines 62-69. *)
Definition read (db_name : string) : io jvalue :=
  b ← read_file db_name true;
  orelse JSONDecodeError (orjson_loads_bytes b).

(** The path both index functions build. *)
Definition index_path (db_name : string) : string :=
  storage_directory cfg +:+ "/.ddb/"
    +:+ str_replace "/"%char "___" db_name +:+ ".index".

(** The source first makes the parent directory of the path; that stores no
    file, and [files] stays as it is. *)
Definition read_index_file (db_name : string) : io (gmap string index_entry) :=
  let path := index_path db_name in
  there ← path_exists path;
  if negb there then mret ∅
  else b ← read_bytes path; orelse JSONDecodeError (orjson_loads_index b).

(** The dict [index_data] is updated in place and stays in the caller's
    hands: the updated mapping is the result. *)
Definition write_index_file (index_data : gmap string index_entry)
    (db_name key : string) (start_index end_index indent_level : Z)
    (indent_with value_hash : string) : io (gmap string index_entry) :=
  let path := index_path db_name in
  let index_data :=
    <[key := (start_index, end_index, indent_level, indent_with, value_hash)]>
      index_data in
  write_bytes path (orjson_dumps_index index_data);;
  mret index_data.

(** The type of [partial_read]'s result. *)
Definition partial_result (as_handle : bool) : Type :=
  if as_handle then PartialFileHandle else jvalue.

(** The two [return]s that close each path of [partial_read]. *)
Definition finish (as_handle : bool) (partial_value : jvalue)
    (handle : PartialFileHandle) : partial_result as_handle :=
  match as_handle return partial_result as_handle with
  | true => handle
  | false => partial_value
  end.

(** The key token the scan looks for: the key in double quotes, then a colon. *)
Definition json_key_of (key : string) : string :=
  String dquote (key +:+ String dquote ":").

(** Lines 115-148 of [partial_read]: the search through the entire file. *)
Definition partial_read_scan (db_name key : string) (as_handle : bool)
    (data : string) (index_data : gmap string index_entry)
    : io (partial_result as_handle) :=
  let json_key := json_key_of key in
  let json_key_start_index := find_outermost_json_key_index data json_key in
  let json_key_end_index := json_key_start_index + len json_key in
  if json_key_start_index =? -1 then raise KeyError
  else
    c ← orelse IndexError (str_index data json_key_end_index);
    let space_after_semicolon := if Ascii.eqb c " "%char then 1 else 0 in
    let value_start_index := json_key_end_index + space_after_semicolon in
    let value_end_index := seek_index_through_value data value_start_index in
    let '(indent_level, indent_with) :=
      detect_indentation_in_json_string data json_key_start_index in
    let partial_str := slice data value_start_index value_end_index in
    index_data ← write_index_file index_data db_name key
      value_start_index value_end_index indent_level indent_with
      (sha256_hexdigest (str_encode partial_str));
    partial_value ← orelse JSONDecodeError (orjson_loads partial_str);
    let partial_dict :=
      mkPartialDict (slice_to data value_start_index) key partial_value
        (slice_from data value_end_index) in
    mret (finish as_handle partial_value
            (mkPartialFileHandle db_name partial_dict indent_level indent_with
               index_data)).

Definition partial_read (db_name key : string) (as_handle : bool)
    : io (partial_result as_handle) :=
  data ← read_file db_name false;
  index_data ← read_index_file db_name;
  match index_data !! key with
  | Some (start_index, end_index, indent_level, indent_with, value_hash) =>
      let partial_str := slice data start_index end_index in
      let partial_str_hash := sha256_hexdigest (str_encode partial_str) in
      if String.eqb value_hash partial_str_hash then
        partial_value ← orelse JSONDecodeError (orjson_loads partial_str);
        let partial_dict :=
          mkPartialDict (slice_to data start_index) key partial_value
            (slice_from data end_index) in
        mret (finish as_handle partial_value
                (mkPartialFileHandle db_name partial_dict indent_level
                   indent_with index_data))
      else partial_read_scan db_name key as_handle data index_data
  | None => partial_read_scan db_name key as_handle data index_data
  end.

(** *** Writing *)

(** [dump if isinstance(dump, bytes) else dump.encode()] *)
Definition dump_bytes (dump : pydata) : bytes :=
  match dump with PBytes b => b | PStr s => str_encode s end.

(** A file opened in mode ["w"] stores the encoding of the text written to
    it; a line feed is written as [os.linesep], which is the line feed itself
    on the POSIX systems the model takes. *)
Definition write_dump (db_name : string) (dump : pydata) : io unit :=
  '(json_path, json_exists, ddb_path, ddb_exists) ← db_paths db_name;
  write_path ←
    (if use_compression cfg then
       when json_exists (remove json_path);;
       mret ddb_path
     else
       when ddb_exists (remove ddb_path);;
       mret json_path);
  let dump :=
    if use_compression cfg then PBytes (zlib_compress (dump_bytes dump) 1)
    else dump in
  match dump with
  | PBytes b => write_bytes write_path b
  | PStr s => write_bytes write_path (str_encode s)
  end.

(** Lines 188-193: what [write] hands to [write_dump]. *)
Definition write_serialize (db : jvalue) : result pydata :=
  if use_orjson cfg then
    let option := if truthy (indent cfg) then OPT_INDENT_2 else 0 in
    let option := Z.lor option (if sort_keys cfg then OPT_SORT_KEYS else 0) in
    match orjson_dumps db option with
    | Some db_dump => Ok (PBytes db_dump)
    | None => Raise JSONEncodeError
    end
  else
    match json_dumps db (indent cfg) (sort_keys cfg) with
    | Some db_dump => Ok (PStr db_dump)
    | None => Raise JSONEncodeError
    end.

Definition write (db_name : string) (db : jvalue) : io unit :=
  db_dump ← lift (write_serialize db);
  write_dump db_name db_dump.

(** Lines 202-208: the dump of the value, before it is indented. *)
Definition partial_serialize (v : jvalue) : result string :=
  if use_orjson cfg then
    let option := if truthy (indent cfg) then OPT_INDENT_2 else 0 in
    let option := Z.lor option (if sort_keys cfg then OPT_SORT_KEYS else 0) in
    match orjson_dumps v option with
    | Some partial_dump =>
        match bytes_decode partial_dump with
        | Some partial_dump => Ok partial_dump
        | None => Raise UnicodeDecodeError
        end
    | None => Raise JSONEncodeError
    end
  else
    match json_dumps v (indent cfg) (sort_keys cfg) with
    | Some partial_dump => Ok partial_dump
    | None => Raise JSONEncodeError
    end.

(** Lines 210-211. *)
Definition reindent (indent_level : Z) (indent_with partial_dump : string) : string :=
  if (0 <? indent_level) && negb (String.eqb indent_with EmptyString) then
    str_replace newline
      (String newline (str_mul indent_level indent_with)) partial_dump
  else partial_dump.

Definition partial_write (pf : PartialFileHandle) : io unit :=
  partial_dump ← lift (partial_serialize (value (partial_dict pf)));
  let partial_dump := reindent (indent_level pf) (indent_with pf) partial_dump in
  write_index_file (index_data pf) (db_name pf) (key (partial_dict pf))
    (len (prefix (partial_dict pf)))
    (len (prefix (partial_dict pf)) + len partial_dump)
    (indent_level pf) (indent_with pf)
    (sha256_hexdigest (str_encode partial_dump));;
  let dump :=
    prefix (partial_dict pf) +:+ partial_dump +:+ suffix (partial_dict pf) in
  write_dump (db_name pf) (PStr dump).

(** The handle with its value replaced, as a caller does between the read
    and the write. *)
Definition with_value (pf : PartialFileHandle) (v : jvalue) : PartialFileHandle :=
  let d := partial_dict pf in
  mkPartialFileHandle (db_name pf)
    (mkPartialDict (prefix d) (key d) v (suffix d))
    (indent_level pf) (indent_with pf) (index_data pf).

(** *** Notions the statements use *)

(** Decompressed bytes as [read_file] hands them out: as they are, or
    decoded. *)
Definition as_data (as_bytes : bool) (b : bytes) : result (file_data as_bytes) :=
  match as_bytes return result (file_data as_bytes) with
  | true => Ok b
  | false =>
      match bytes_decode b with
      | Some s => Ok s
      | None => Raise UnicodeDecodeError
      end
  end.

(** The bytes of the plain file as [read_file] hands them out: as they are,
    or as the text a text-mode read makes of them. *)
Definition as_file (as_bytes : bool) (b : bytes) : result (file_data as_bytes) :=
  match as_bytes return result (file_data as_bytes) with
  | true => Ok b
  | false =>
      match bytes_decode b with
      | Some s => Ok (universal_newlines s)
      | None => Raise UnicodeDecodeError
      end
  end.

(** What [read_file] returns, from what the plain and the compressed path
    hold: both is an inconsistency, neither is absence, and otherwise the
    result is the one representation, read as a file if it is the plain one,
    decompressed if it is the compressed one. *)
Definition read_document (as_bytes : bool) (plain compressed : option bytes)
    : result (file_data as_bytes) :=
  match plain, compressed with
  | Some _, Some _ => Raise FileExistsError
  | None, None => Raise FileNotFoundError
  | Some b, None => as_file as_bytes b
  | None, Some b =>
      match zlib_decompress b with
      | Some d => as_data as_bytes d
      | None => Raise ZlibError
      end
  end.

(** What [orjson.loads] makes of the bytes of a document. *)
Definition loaded (b : bytes) : result jvalue :=
  match orjson_loads_bytes b with
  | Some v => Ok v
  | None => Raise JSONDecodeError
  end.

(** Exactly one of the two representations of a database exists. *)
Definition one_representation (db_name : string) (σ : fs) : Prop :=
  (is_Some (files σ !! json_path db_name) ∧ files σ !! ddb_path db_name = None)
  ∨ (files σ !! json_path db_name = None ∧ is_Some (files σ !! ddb_path db_name)).

(** The hash of the text between two offsets. *)
Definition span_hash (data : string) (start_index end_index : Z) : string :=
  sha256_hexdigest (str_encode (slice data start_index end_index)).

(** An index entry whose hash is that of the text at its offsets. *)
Definition entry_matches (data : string) (e : index_entry) : Prop :=
  let '(start_index, end_index, _, _, value_hash) := e in
  value_hash = span_hash data start_index end_index.

#[export] Instance entry_matches_dec (data : string) (e : index_entry) :
  Decision (entry_matches data e).
Proof. destruct e as [[[[s en] il] iw] h]. simpl. apply _. Defined.

(** The path [write_dump] writes, the path it clears, and the bytes it
    stores. *)
Definition write_path (db_name : string) : string :=
  if use_compression cfg then ddb_path db_name else json_path db_name.

Definition other_path (db_name : string) : string :=
  if use_compression cfg then json_path db_name else ddb_path db_name.

Definition stored_bytes (dump : pydata) : bytes :=
  if use_compression cfg then zlib_compress (dump_bytes dump) 1
  else dump_bytes dump.

(** What a text reads back as once [write_dump] has stored it: as it is from
    the compressed file, with its line ends translated from the plain one. *)
Definition reread (s : string) : string :=
  if use_compression cfg then s else universal_newlines s.

(** Where the scan puts the start of the value: past the key token and one
    space, if there is one. *)
Definition scan_value_start (data key : string) : option Z :=
  let json_key_end_index :=
    find_outermost_json_key_index data (json_key_of key) + len (json_key_of key) in
  c ← str_index data json_key_end_index;
  Some (json_key_end_index + (if Ascii.eqb c " "%char then 1 else 0)).

(** The entry the scan writes for a value that starts at [value_start_index]. *)
Definition scan_entry (data key : string) (value_start_index : Z) : index_entry :=
  let value_end_index := seek_index_through_value data value_start_index in
  let '(indent_level, indent_with) :=
    detect_indentation_in_json_string data
      (find_outermost_json_key_index data (json_key_of key)) in
  (value_start_index, value_end_index, indent_level, indent_with,
   span_hash data value_start_index value_end_index).

(** The handle [partial_read] builds from a document, an index entry and the
    index mapping it holds. *)
Definition handle_of (db_name key : string) (data : string) (e : index_entry)
    (partial_value : jvalue) (index_data : gmap string index_entry)
    : PartialFileHandle :=
  let '(start_index, end_index, indent_level, indent_with, _) := e in
  mkPartialFileHandle db_name
    (mkPartialDict (slice_to data start_index) key partial_value
       (slice_from data end_index))
    indent_level indent_with index_data.

(** What both paths of [partial_read] return for the value at an entry's
    offsets. *)
Definition decoded (as_handle : bool) (db_name key : string) (data : string)
    (e : index_entry) (index_data : gmap string index_entry)
    : result (partial_result as_handle) :=
  let '(start_index, end_index, _, _, _) := e in
  match orjson_loads (slice data start_index end_index) with
  | Some v => Ok (finish as_handle v (handle_of db_name key data e v index_data))
  | None => Raise JSONDecodeError
  end.

(** The file system after the index file of a database is written. *)
Definition with_index (db_name : string) (index_data : gmap string index_entry)
    (σ : fs) : fs :=
  Fs (<[index_path db_name := orjson_dumps_index index_data]> (files σ))
     (unwritable σ).

(** What [partial_write] writes in place of the value. *)
Definition new_dump (pf : PartialFileHandle) (partial_dump : string) : string :=
  reindent (indent_level pf) (indent_with pf) partial_dump.

(** The entry [partial_write] stores for a handle and its dump. *)
Definition written_entry (pf : PartialFileHandle) (partial_dump : string) : index_entry :=
  (len (prefix (partial_dict pf)),
   len (prefix (partial_dict pf)) + len (new_dump pf partial_dump),
   indent_level pf, indent_with pf,
   sha256_hexdigest (str_encode (new_dump pf partial_dump))).

End Engine.

(** ** Reference libraries

    Executable instances of the two interfaces, for running the engine on
    concrete documents. *)

(** SHA-256 (FIPS 180-4) on 32-bit words held in [Z]. *)
Module Sha256.

Definition w32 (x : Z) : Z := Z.land x 0xffffffff.
Definition add32 (x y : Z) : Z := w32 (x + y).
Definition rotr (n x : Z) : Z :=
  Z.lor (Z.shiftr x n) (w32 (Z.shiftl x (32 - n))).
Definition ch (x y z : Z) : Z :=
  Z.lxor (Z.land x y) (Z.land (Z.lxor x 0xffffffff) z).
Definition maj (x y z : Z) : Z :=
  Z.lxor (Z.lxor (Z.land x y) (Z.land x z)) (Z.land y z).
Definition bsig0 (x : Z) : Z := Z.lxor (Z.lxor (rotr 2 x) (rotr 13 x)) (rotr 22 x).
Definition bsig1 (x : Z) : Z := Z.lxor (Z.lxor (rotr 6 x) (rotr 11 x)) (rotr 25 x).
Definition ssig0 (x : Z) : Z := Z.lxor (Z.lxor (rotr 7 x) (rotr 18 x)) (Z.shiftr x 3).
Definition ssig1 (x : Z) : Z := Z.lxor (Z.lxor (rotr 17 x) (rotr 19 x)) (Z.shiftr x 10).

(** The first sixty-four primes. *)
Definition primes : list Z := [
  2; 3; 5; 7; 11; 13; 17; 19; 23; 29; 31; 37; 41; 43; 47; 53; 59; 61; 67; 71;
  73; 79; 83; 89; 97; 101; 103; 107; 109; 113; 127; 131; 137; 139; 149; 151;
  157; 163; 167; 173; 179; 181; 191; 193; 197; 199; 211; 223; 227; 229; 233;
  239; 241; 251; 257; 263; 269; 271; 277; 281; 283; 293; 307; 311 ].

(** The largest [r] below [2 ^ bits] with [power r <= n], one bit at a time. *)
Fixpoint root_below (power : Z → Z) (n : Z) (bits : nat) (r : Z) : Z :=
  match bits with
  | O => r
  | S bits' =>
      let r' := r + 2 ^ Z.of_nat bits' in
      root_below power n bits' (if power r' <=? n then r' else r)
  end.

(** The first thirty-two bits of the fractional part of the root of [p] of
    the given degree. *)
Definition root_fraction (degree : Z) (p : Z) : Z :=
  w32 (root_below (λ r, r ^ degree) (p * 2 ^ (32 * degree)) 36 0).

(** The round constants: the cube roots of the primes. *)
Definition K : list Z := Eval vm_compute in root_fraction 3 <$> primes.

Definition byte_val (b : Byte.byte) : Z := Z.of_N (Byte.to_N b).

(** The message, the bit 1, zeros up to 56 modulo 64, the bit length. *)
Definition pad (msg : bytes) : list Z :=
  let n := Z.of_nat (length msg) in
  let zeros := (55 - n) mod 64 in
  (byte_val <$> msg) ++ [0x80] ++ replicate (Z.to_nat zeros) 0
    ++ ((λ i, Z.land (Z.shiftr (8 * n) (8 * (7 - Z.of_nat i))) 0xff) <$> seq 0 8).

(** Big-endian words of a byte list. *)
Fixpoint words (l : list Z) : list Z :=
  match l with
  | a :: b :: c :: d :: l' =>
      (Z.shiftl a 24 + Z.shiftl b 16 + Z.shiftl c 8 + d) :: words l'
  | _ => []
  end.

(** One more word of the message schedule, from the sixteen before it. *)
Definition extend (w : list Z) : list Z :=
  let t := length w in
  let at_ (i : nat) := w !!! (t - i)%nat in
  w ++ [add32 (add32 (ssig1 (at_ 2%nat)) (at_ 7%nat))
              (add32 (ssig0 (at_ 15%nat)) (at_ 16%nat))].

Definition schedule (block : list Z) : list Z := Nat.iter 48 extend block.

Definition state : Type := Z * Z * Z * Z * Z * Z * Z * Z.

(** The initial state: the square roots of the first eight primes. *)
Definition H0 : state :=
  Eval vm_compute in
    match root_fraction 2 <$> take 8 primes with
    | [a; b; c; d; e; f; g; h] => (a, b, c, d, e, f, g, h)
    | _ => (0, 0, 0, 0, 0, 0, 0, 0)
    end.

Definition round (s : state) (kw : Z * Z) : state :=
  let '(a, b, c, d, e, f, g, h) := s in
  let t1 := add32 (add32 (add32 h (bsig1 e)) (add32 (ch e f g) (fst kw))) (snd kw) in
  let t2 := add32 (bsig0 a) (maj a b c) in
  (add32 t1 t2, a, b, c, add32 d t1, e, f, g).

Definition compress (s : state) (block : list Z) : state :=
  let '(a, b, c, d, e, f, g, h) := s in
  let '(a', b', c', d', e', f', g', h') :=
    foldl round s (zip K (schedule block)) in
  (add32 a a', add32 b b', add32 c c', add32 d d',
   add32 e e', add32 f f', add32 g g', add32 h h').

(** The blocks of sixteen words each. *)
Fixpoint blocks (n : nat) (ws : list Z) : list (list Z) :=
  match n with
  | O => []
  | S n' => take 16 ws :: blocks n' (drop 16 ws)
  end.

Definition hex_digit (d : Z) : ascii :=
  ascii_of_N (Z.to_N (if d <? 10 then 48 + d else 87 + d)).

Definition hex32 (x : Z) : string :=
  foldr (λ i acc, String (hex_digit (Z.land (Z.shiftr x (4 * (7 - Z.of_nat i))) 15)) acc)
    EmptyString (seq 0 8).

Definition hexdigest (msg : bytes) : string :=
  let ws := words (pad msg) in
  let '(a, b, c, d, e, f, g, h) :=
    foldl compress H0 (blocks (length ws / 16) ws) in
  hex32 a +:+ hex32 b +:+ hex32 c +:+ hex32 d
    +:+ hex32 e +:+ hex32 f +:+ hex32 g +:+ hex32 h.

End Sha256.


(** UTF-8 for the characters a [string] holds, the code points below 256:
    one byte below 128, two bytes from there. *)
Module Utf8.

Definition byte_of_Z (n : Z) : Byte.byte :=
  byte_of_ascii (ascii_of_N (Z.to_N n)).

Definition encode_char (c : ascii) : bytes :=
  let n := Z.of_N (N_of_ascii c) in
  if n <? 128 then [byte_of_ascii c]
  else [byte_of_Z (Z.lor 0xc0 (Z.shiftr n 6)); byte_of_Z (Z.lor 0x80 (Z.land n 0x3f))].

Fixpoint encode (s : string) : bytes :=
  match s with
  | EmptyString => []
  | String c s' => encode_char c ++ encode s'
  end.

(** Strict: a byte sequence that is not the encoding of such characters is
    refused. *)
Fixpoint decode (b : bytes) : option string :=
  match b with
  | [] => Some EmptyString
  | x :: rest =>
      let n := Sha256.byte_val x in
      if n <? 128 then String (ascii_of_byte x) <$> decode rest
      else if (0xc2 <=? n) && (n <=? 0xc3) then
        match rest with
        | y :: rest' =>
            let m := Sha256.byte_val y in
            if (0x80 <=? m) && (m <? 0xc0) then
              String (ascii_of_N (Z.to_N (Z.lor (Z.shiftl (Z.land n 0x1f) 6) (Z.land m 0x3f))))
                <$> decode rest'
            else None
        | [] => None
        end
      else None
  end.

End Utf8.

(** A stand-in for [zlib]: the two header bytes of a zlib stream, then the
    data as it is. *)
Module Stored.

Definition compress (b : bytes) (level : Z) : bytes := x78 :: x01 :: b.

Definition decompress (b : bytes) : option bytes :=
  match b with
  | x78 :: x01 :: data => Some data
  | _ => None
  end.

End Stored.

(** JSON values with integer numbers, their two printers and a reader. *)
Module Json.

Local Unset Elimination Schemes.
Inductive t : Type :=
  | Null
  | Bool (b : bool)
  | Int (n : Z)
  | Str (s : string)
  | Arr (items : list t)
  | Obj (members : list (string * t)).
Local Set Elimination Schemes.

(** How a printer lays a value out. *)
Record style : Type := Style {
  (** the indentation unit; [None] prints on one line *)
  unit_ : option string;
  item_sep : string;
  key_sep : string;
  (** escape the characters from 128 on *)
  ascii_only : bool;
  sorted : bool;
}.

Definition hex_digit (d : Z) : ascii :=
  ascii_of_N (Z.to_N (if d <? 10 then 48 + d else 87 + d)).

Definition escape_char (ascii_only : bool) (c : ascii) (rest : string) : string :=
  let n := Z.of_N (N_of_ascii c) in
  if Ascii.eqb c dquote then String "\" (String dquote rest)
  else if Ascii.eqb c "\" then String "\" (String "\" rest)
  else if n =? 8 then String "\" (String "b" rest)
  else if n =? 9 then String "\" (String "t" rest)
  else if n =? 10 then String "\" (String "n" rest)
  else if n =? 12 then String "\" (String "f" rest)
  else if n =? 13 then String "\" (String "r" rest)
  else if (n <? 32) || (ascii_only && (128 <=? n)) then
    String "\" (String "u" (String "0" (String "0"
      (String (hex_digit (Z.shiftr n 4)) (String (hex_digit (Z.land n 15)) rest)))))
  else String c rest.

Fixpoint escape (ascii_only : bool) (s : string) : string :=
  match s with
  | EmptyString => EmptyString
  | String c s' => escape_char ascii_only c (escape ascii_only s')
  end.

Definition quote (ascii_only : bool) (s : string) : string :=
  String dquote (escape ascii_only s +:+ String dquote EmptyString).

Fixpoint join (sep : string) (l : list string) : string :=
  match l with
  | [] => EmptyString
  | [x] => x
  | x :: l' => x +:+ sep +:+ join sep l'
  end.

(** Insertion of a printed member by its key. *)
Fixpoint insert_member (m : string * string) (l : list (string * string))
    : list (string * string) :=
  match l with
  | [] => [m]
  | m' :: l' =>
      if String.leb (fst m) (fst m') then m :: l else m' :: insert_member m l'
  end.

Definition break (st : style) (level : nat) : string :=
  match unit_ st with
  | None => EmptyString
  | Some u => String newline (str_mul (Z.of_nat level) u)
  end.

Definition bracket (st : style) (level : nat) (op cl : string)
    (items : list string) : string :=
  match items with
  | [] => op +:+ cl
  | _ =>
      op +:+ break st (S level)
        +:+ join (item_sep st +:+ break st (S level)) items
        +:+ break st level +:+ cl
  end.

Fixpoint print (st : style) (level : nat) (v : t) : string :=
  match v with
  | Null => "null"
  | Bool true => "true"
  | Bool false => "false"
  | Int n => pretty n
  | Str s => quote (ascii_only st) s
  | Arr items => bracket st level "[" "]" (print st (S level) <$> items)
  | Obj members =>
      let printed := (λ m, (fst m, print st (S level) (snd m))) <$> members in
      let printed := if sorted st then foldr insert_member [] printed else printed in
      bracket st level "{" "}"
        ((λ m, quote (ascii_only st) (fst m) +:+ key_sep st +:+ snd m) <$> printed)
  end.

(** *** The reader *)

Definition is_ws (c : ascii) : bool :=
  let n := Z.of_N (N_of_ascii c) in
  (n =? 32) || (n =? 9) || (n =? 10) || (n =? 13).

Fixpoint skip_ws (s : string) : string :=
  match s with
  | String c s' => if is_ws c then skip_ws s' else s
  | EmptyString => s
  end.

(** [s] without the prefix [p]. *)
Fixpoint strip (p s : string) : option string :=
  match p, s with
  | EmptyString, _ => Some s
  | String a p', String b s' => if Ascii.eqb a b then strip p' s' else None
  | _, EmptyString => None
  end.

Definition hex_val (c : ascii) : option Z :=
  let n := Z.of_N (N_of_ascii c) in
  if (48 <=? n) && (n <=? 57) then Some (n - 48)
  else if (97 <=? n) && (n <=? 102) then Some (n - 87)
  else if (65 <=? n) && (n <=? 70) then Some (n - 55)
  else None.

(** The text of a string literal after its opening quote, and what follows
    the closing one. *)
Fixpoint read_string (s : string) : option (string * string) :=
  match s with
  | EmptyString => None
  | String c s' =>
      if Ascii.eqb c dquote then Some (EmptyString, s')
      else if Ascii.eqb c "\" then
        match s' with
        | String e s'' =>
            let plain (x : ascii) :=
              '(r, rest) ← read_string s''; Some (String x r, rest) in
            if Ascii.eqb e dquote then plain dquote
            else if Ascii.eqb e "\" then plain "\"%char
            else if Ascii.eqb e "/" then plain "/"%char
            else if Ascii.eqb e "b" then plain "008"%char
            else if Ascii.eqb e "t" then plain "009"%char
            else if Ascii.eqb e "n" then plain "010"%char
            else if Ascii.eqb e "f" then plain "012"%char
            else if Ascii.eqb e "r" then plain "013"%char
            else if Ascii.eqb e "u" then
              match s'' with
              | String "0" (String "0" (String h (String l s3))) =>
                  hv ← hex_val h; lv ← hex_val l;
                  '(r, rest) ← read_string s3;
                  Some (String (ascii_of_N (Z.to_N (16 * hv + lv))) r, rest)
              | _ => None
              end
            else None
        | EmptyString => None
        end
      else if Z.of_N (N_of_ascii c) <? 32 then None
      else '(r, rest) ← read_string s'; Some (String c r, rest)
  end.

Definition digit_val (c : ascii) : option Z :=
  let n := Z.of_N (N_of_ascii c) in
  if (48 <=? n) && (n <=? 57) then Some (n - 48) else None.

Fixpoint read_digits (acc : Z) (s : string) : Z * string :=
  match s with
  | String c s' =>
      match digit_val c with
      | Some d => read_digits (10 * acc + d) s'
      | None => (acc, s)
      end
  | EmptyString => (acc, s)
  end.

(** An integer: digits, with no leading zero before another digit. *)
Definition read_nat (s : string) : option (Z * string) :=
  match s with
  | String c s' =>
      match digit_val c with
      | Some 0 =>
          match s' with
          | String c' _ => if digit_val c' is Some _ then None else Some (0, s')
          | EmptyString => Some (0, s')
          end
      | Some d => Some (read_digits d s')
      | None => None
      end
  | EmptyString => None
  end.

Fixpoint read_value (fuel : nat) (s : string) : option (t * string) :=
  match fuel with
  | O => None
  | S fuel =>
      match skip_ws s with
      | String "n" s' => rest ← strip "ull" s'; Some (Null, rest)
      | String "t" s' => rest ← strip "rue" s'; Some (Bool true, rest)
      | String "f" s' => rest ← strip "alse" s'; Some (Bool false, rest)
      | String "034" s' => '(r, rest) ← read_string s'; Some (Str r, rest)
      | String "-" s' => '(n, rest) ← read_nat s'; Some (Int (- n), rest)
      | String "[" s' =>
          match skip_ws s' with
          | String "]" rest => Some (Arr [], rest)
          | _ => '(items, rest) ← read_items fuel s'; Some (Arr items, rest)
          end
      | String "{" s' =>
          match skip_ws s' with
          | String "}" rest => Some (Obj [], rest)
          | _ => '(members, rest) ← read_members fuel s'; Some (Obj members, rest)
          end
      | s' => '(n, rest) ← read_nat s'; Some (Int n, rest)
      end
  end
with read_items (fuel : nat) (s : string) : option (list t * string) :=
  match fuel with
  | O => None
  | S fuel =>
      '(v, rest) ← read_value fuel s;
      match skip_ws rest with
      | String "," rest' =>
          '(items, rest'') ← read_items fuel rest'; Some (v :: items, rest'')
      | String "]" rest' => Some ([v], rest')
      | _ => None
      end
  end
with read_members (fuel : nat) (s : string) : option (list (string * t) * string) :=
  match fuel with
  | O => None
  | S fuel =>
      match skip_ws s with
      | String "034" s' =>
          '(k, rest) ← read_string s';
          match skip_ws rest with
          | String ":" rest' =>
              '(v, rest'') ← read_value fuel rest';
              match skip_ws rest'' with
              | String "," rest3 =>
                  '(members, rest4) ← read_members fuel rest3;
                  Some ((k, v) :: members, rest4)
              | String "}" rest3 => Some ([(k, v)], rest3)
              | _ => None
              end
          | _ => None
          end
      | _ => None
      end
  end.

(** A whole text: one value and nothing but blanks after it. *)
Definition loads (s : string) : option t :=
  '(v, rest) ← read_value (S (String.length s)) s;
  match skip_ws rest with
  | EmptyString => Some v
  | _ => None
  end.

End Json.

(** A stand-in for [orjson] on the index mapping: the mapping's code as a
    number, written in binary digits.  What matters to the engine is that the
    reader gives back the mapping that was written. *)
Module IndexCodec.

Fixpoint digits (p : positive) : bytes :=
  match p with
  | xH => []
  | xO q => "0"%byte :: digits q
  | xI q => "1"%byte :: digits q
  end.

Fixpoint number (b : bytes) : option positive :=
  match b with
  | [] => Some xH
  | "0"%byte :: r => xO <$> number r
  | "1"%byte :: r => xI <$> number r
  | _ => None
  end.

Definition dumps (m : gmap string index_entry) : bytes := digits (encode m).

Definition loads (b : bytes) : option (gmap string index_entry) :=
  number b ≫= decode.

End IndexCodec.

(** Modelled from the spec: the Boundary Scanner ([dictdatabase/utils.py] is
    not among the source files), after section 4.1.  [locate_key] returns the
    first textual match of the key token that does not lie inside a string
    literal, [-1] for NotFound; [seek_value_end] counts brackets and tracks
    string literals and escapes, and stops where the depth is back at zero
    before a delimiter; [detect_indentation] walks back over the blanks that
    lead the key's line and counts them, the unit being the blank itself. *)
Module SpecScanner.

Definition is_open (c : ascii) : bool := Ascii.eqb c "{" || Ascii.eqb c "[".
Definition is_close (c : ascii) : bool := Ascii.eqb c "}" || Ascii.eqb c "]".
Definition is_blank (c : ascii) : bool := Ascii.eqb c " " || Ascii.eqb c "009".

Fixpoint locate_from (i : Z) (in_string escaped : bool) (json_key text : string) : Z :=
  match text with
  | EmptyString => -1
  | String c text' =>
      if negb in_string && String.prefix json_key text then i
      else if in_string then
        if escaped then locate_from (i + 1) true false json_key text'
        else if Ascii.eqb c "\" then locate_from (i + 1) true true json_key text'
        else if Ascii.eqb c dquote then locate_from (i + 1) false false json_key text'
        else locate_from (i + 1) true false json_key text'
      else if Ascii.eqb c dquote then locate_from (i + 1) true false json_key text'
      else locate_from (i + 1) false false json_key text'
  end.

(** Modelled from the spec: [locate_key] of section 4.1, the offset of the
    first key token outside string literals, or [-1]. *)
Definition locate_key (text json_key : string) : Z :=
  locate_from 0 false false json_key text.

Fixpoint seek_from (i depth : Z) (in_string escaped : bool) (text : string) : Z :=
  match text with
  | EmptyString => i
  | String c text' =>
      if in_string then
        if escaped then seek_from (i + 1) depth true false text'
        else if Ascii.eqb c "\" then seek_from (i + 1) depth true true text'
        else if Ascii.eqb c dquote then
          if depth =? 0 then i + 1 else seek_from (i + 1) depth false false text'
        else seek_from (i + 1) depth true false text'
      else if Ascii.eqb c dquote then seek_from (i + 1) depth true false text'
      else if is_open c then seek_from (i + 1) (depth + 1) false false text'
      else if is_close c then
        if depth =? 0 then i
        else if depth =? 1 then i + 1
        else seek_from (i + 1) (depth - 1) false false text'
      else if (depth =? 0) && (Ascii.eqb c "," || Json.is_ws c) then i
      else seek_from (i + 1) depth false false text'
  end.

(** Modelled from the spec: [seek_value_end] of section 4.1, the offset just
    past the value that starts at [value_start_offset]. *)
Definition seek_value_end (text : string) (value_start_offset : Z) : Z :=
  seek_from value_start_offset 0 false false (slice_from text value_start_offset).

(** The blanks that lead the last line of [text], last one first; [None]
    when that line holds something else. *)
Fixpoint leading_blanks (acc : option string) (text : string) : option string :=
  match text with
  | EmptyString => acc
  | String c text' =>
      if Ascii.eqb c newline then leading_blanks (Some EmptyString) text'
      else if is_blank c then leading_blanks (String c <$> acc) text'
      else leading_blanks None text'
  end.

(** Modelled from the spec: [detect_indentation] of section 4.1, the level
    and the unit of the indentation of the key's line. *)
Definition detect_indentation (text : string) (key_start_offset : Z) : Z * string :=
  match leading_blanks (Some EmptyString) (slice_to text key_start_offset) with
  | Some (String c _ as blanks) => (len blanks, String c EmptyString)
  | _ => (0, EmptyString)
  end.

End SpecScanner.

(** The reference instances. *)
Definition ref_style (indent : option string) (sorted : bool) : Json.style :=
  match indent with
  | None => Json.Style None "," ":" false sorted
  | Some u => Json.Style (Some u) "," ": " false sorted
  end.

Definition ref_library : Library := {|
  jvalue := Json.t;
  str_encode := Utf8.encode;
  bytes_decode := Utf8.decode;
  sha256_hexdigest := Sha256.hexdigest;
  zlib_compress := Stored.compress;
  zlib_decompress := Stored.decompress;
  orjson_loads := Json.loads;
  orjson_dumps v option :=
    Some (Utf8.encode
      (Json.print
         (ref_style (if Z.testbit option 0 then Some "  " else None)
            (Z.testbit option 5)) 0 v));
  json_dumps v indent sort_keys :=
    Some (Json.print
      match indent with
      | IndentNone => Json.Style None ", " ": " true sort_keys
      | IndentInt n => Json.Style (Some (str_mul n " ")) "," ": " true sort_keys
      | IndentStr u => Json.Style (Some u) "," ": " true sort_keys
      end 0 v);
  orjson_dumps_index := IndexCodec.dumps;
  orjson_loads_index := IndexCodec.loads;
|}.

Definition ref_scanner : Scanner := {|
  find_outermost_json_key_index := SpecScanner.locate_key;
  seek_index_through_value := SpecScanner.seek_value_end;
  detect_indentation_in_json_string := SpecScanner.detect_indentation;
|}.

(** A scanner that finds no key: with it, a value that is returned was not
    located by a scan. *)
Definition blind_scanner : Scanner := {|
  find_outermost_json_key_index _ _ := -1;
  seek_index_through_value _ value_start_index := value_start_index;
  detect_indentation_in_json_string _ _ := (0, EmptyString);
|}.

(** A JSON text written with apostrophes for its double quotes. *)
Definition json_text (s : string) : string :=
  str_replace "'" (String dquote EmptyString) s.

(** ** Example documents *)

Section Examples.
Local Existing Instance ref_library.
Local Existing Instance ref_scanner.

(** [json.dumps] on one line, plain files. *)
Definition cfg_plain : config := Config "store" false false IndentNone false.

(** [orjson], indented, keys sorted, compressed files. *)
Definition cfg_packed : config :=
  Config "store" true true (IndentStr (String "009" EmptyString)) true.

(** The document of the spec's scenario, in a plain file, with no index. *)
Definition doc_abc : string :=
  json_text "{'a': 1, 'b': {'x': [1,2,3]}, 'c': 'text'}".

Definition fs_abc : fs := Fs {[ "store/db.json" := Utf8.encode doc_abc ]} ∅.

Definition value_x123 : Json.t :=
  Json.Obj [("x", Json.Arr [Json.Int 1; Json.Int 2; Json.Int 3])].

Definition value_x9 : Json.t := Json.Obj [("x", Json.Arr [Json.Int 9])].

(** The entry the scan writes for the key [b] of [doc_abc]. *)
Definition entry_abc_b : index_entry :=
  (14, 28, 0, EmptyString,
   "1e896f7617fec0de64e597d788680642f64ef72dfada9fce6f9ee873269e7cee").

(** [fs_abc] after a [partial_read] of [b]. *)
Definition fs_abc_indexed : fs :=
  with_index cfg_plain "db" {[ "b" := entry_abc_b ]} fs_abc.

(** The handle of that read, and the handle with the new value. *)
Definition handle_abc_b : PartialFileHandle :=
  handle_of "db" "b" doc_abc entry_abc_b value_x123 {[ "b" := entry_abc_b ]}.

Definition entry_x9 : index_entry :=
  (14, 24, 0, EmptyString,
   "68ddc1a9e7156d21bd1d1febe0aa2d20221c07f55c3960a40780563309748a39").

Definition doc_x9 : string :=
  json_text "{'a': 1, 'b': {'x': [9]}, 'c': 'text'}".

(** The file system after the [partial_write] of the new value. *)
Definition fs_x9 : fs :=
  Fs {[ "store/db.json" := Utf8.encode doc_x9;
        "store/.ddb/db.index" := IndexCodec.dumps {[ "b" := entry_x9 ]} ]} ∅.

(** A document whose key [a] grew by two characters after [b] was indexed:
    the entry of [b] is stale. *)
Definition doc_shifted : string :=
  json_text "{'a': 100, 'b': {'x': [1,2,3]}, 'c': 'text'}".

Definition fs_stale : fs :=
  Fs {[ "store/db.json" := Utf8.encode doc_shifted;
        "store/.ddb/db.index" := IndexCodec.dumps {[ "b" := entry_abc_b ]} ]} ∅.

Definition entry_shifted_b : index_entry :=
  (16, 30, 0, EmptyString,
   "1e896f7617fec0de64e597d788680642f64ef72dfada9fce6f9ee873269e7cee").

(** [fs_abc_indexed] with a document file that cannot be opened for
    writing. *)
Definition fs_locked : fs :=
  Fs (files fs_abc_indexed) {[ "store/db.json" ]}.

(** A document that [orjson] indented, in a plain file, read under a
    configuration that compresses. *)
Definition value_nested : Json.t :=
  Json.Obj [("a", Json.Int 1); ("b", Json.Obj [("y", Json.Int 2); ("x", Json.Int 1)])].

Definition doc_nested : string :=
  Json.print (ref_style (Some "  ") true) 0 value_nested.

Definition fs_nested : fs :=
  Fs {[ "store/db.json" := Utf8.encode doc_nested ]} ∅.

(** The two documents of the stale hit: the keys change places and the values
    stay. *)
Definition doc_ba : string := json_text "{'b': 1, 'a': 1}".
Definition doc_ab : string := json_text "{'a': 1, 'b': 1}".
Definition value_ab : Json.t := Json.Obj [("a", Json.Int 1); ("b", Json.Int 1)].
Definition fs_ba : fs := Fs {[ "store/db.json" := Utf8.encode doc_ba ]} ∅.


(** Two databases side by side. *)
Definition fs_two : fs :=
  Fs {[ "store/db.json" := Utf8.encode doc_abc;
        "store/other.json" := Utf8.encode doc_ab ]} ∅.

(** An index file that is no index. *)
Definition fs_corrupt : fs :=
  Fs {[ "store/db.json" := Utf8.encode doc_abc;
        "store/.ddb/db.index" := Utf8.encode "{" ]} ∅.

(** A document whose key [b] has no JSON value. *)
Definition doc_bad : string := json_text "{'a': 1, 'b': tru, 'c': 2}".
Definition fs_bad : fs := Fs {[ "store/db.json" := Utf8.encode doc_bad ]} ∅.

(** The entry the scan writes for [b] in [doc_bad]: the hash is that of the
    three characters it located. *)
Definition entry_bad_b : index_entry :=
  (14, 17, 0, EmptyString,
   "e2de3f751ecb78216c447144c8c1f4bf9e0645c32b72a02d3ad1d1c48eec2fe7").

(** A document cut off behind a key token. *)
Definition doc_cut : string := json_text "{'a': 1, 'b':".
Definition fs_cut : fs := Fs {[ "store/db.json" := Utf8.encode doc_cut ]} ∅.

(** An entry for a key [a], beside that of [b]. *)
Definition entry_abc_a : index_entry :=
  (6, 7, 0, EmptyString,
   "6b86b273ff34fce19d6b804eff5a3f5747ada4eaa22f1d49c01e52ddb7875b4b").

(** A document of two lines with the line end of Windows, and as a text-mode
    read gives it. *)
Definition doc_crlf : string :=
  json_text "{'a': 1," +:+ String cr (String newline (json_text "'b': 2}")).
Definition doc_lf : string :=
  json_text "{'a': 1," +:+ String newline (json_text "'b': 2}").

End Examples.

(** * Facts *)

(** ** Strings and slices *)

Lemma len_nonneg (s : string) : 0 <= len s.
Proof. unfold len. lia. Qed.

Lemma app_cons (c : ascii) (s t : string) : String c s +:+ t = String c (s +:+ t).
Proof. reflexivity. Qed.

Lemma app_nil (t : string) : EmptyString +:+ t = t.
Proof. reflexivity. Qed.

Lemma length_app (s t : string) :
  String.length (s +:+ t) = (String.length s + String.length t)%nat.
Proof.
  induction s as [|c s IH]; [done|]. rewrite app_cons. simpl. by rewrite IH.
Qed.

Lemma len_app (s t : string) : len (s +:+ t) = len s + len t.
Proof. unfold len. rewrite length_app. lia. Qed.

Lemma app_assoc_s (s t u : string) : (s +:+ t) +:+ u = s +:+ t +:+ u.
Proof. induction s as [|c s IH]; [done|]. by rewrite !app_cons, IH. Qed.

Lemma app_empty_r (s : string) : s +:+ EmptyString = s.
Proof. induction s as [|c s IH]; [done|]. by rewrite app_cons, IH. Qed.

Lemma substring_all (s : string) : String.substring 0 (String.length s) s = s.
Proof. induction s as [|c s IH]; simpl; [done | by rewrite IH]. Qed.

Lemma substring_none (n : nat) (s : string) : String.substring n 0 s = EmptyString.
Proof. revert n. induction s as [|c s IH]; intros [|n]; simpl; auto. Qed.

Lemma substring_head (d s : string) :
  String.substring 0 (String.length d) (d +:+ s) = d.
Proof.
  induction d as [|c d IH].
  - apply substring_none.
  - rewrite app_cons. simpl. by rewrite IH.
Qed.

Lemma substring_skip (p t : string) (m : nat) :
  String.substring (String.length p) m (p +:+ t) = String.substring 0 m t.
Proof. induction p as [|c p IH]; [done|]. rewrite app_cons. simpl. auto. Qed.

Lemma substring_split (s : string) (a b : nat) :
  (a <= b <= String.length s)%nat →
  s = String.substring 0 a s +:+ String.substring a (b - a) s
        +:+ String.substring b (String.length s - b) s.
Proof.
  revert a b. induction s as [|c s IH]; intros a b [Hab Hb]; simpl in *.
  - assert (a = 0 ∧ b = 0)%nat as [-> ->] by lia. done.
  - destruct a as [|a].
    + destruct b as [|b]; simpl.
      * by rewrite substring_all.
      * rewrite app_nil, app_cons. f_equal.
        rewrite (IH 0%nat b) at 1 by lia.
        by rewrite substring_none, Nat.sub_0_r.
    + destruct b as [|b]; [lia|]. simpl. rewrite app_cons. f_equal.
      apply IH. lia.
Qed.

Lemma clamp_in_range (n i : Z) : 0 <= i <= n → clamp_index n i = i.
Proof. intros ?. unfold clamp_index. destruct (Z.ltb_spec i 0); lia. Qed.

(** The slice at the offsets of the middle part is the middle part. *)
Lemma slice_middle (p d s : string) :
  slice (p +:+ d +:+ s) (len p) (len p + len d) = d.
Proof.
  pose proof (len_nonneg p). pose proof (len_nonneg d). pose proof (len_nonneg s).
  unfold slice. rewrite !len_app, !clamp_in_range by lia.
  replace (len p + len d - len p) with (len d) by lia.
  unfold len. rewrite !Nat2Z.id, substring_skip. apply substring_head.
Qed.

Lemma slice_to_head (p t : string) : slice_to (p +:+ t) (len p) = p.
Proof.
  pose proof (len_nonneg p). pose proof (len_nonneg t).
  unfold slice_to, slice. rewrite !len_app, !clamp_in_range by lia.
  rewrite Z.sub_0_r. unfold len. rewrite Nat2Z.id. apply substring_head.
Qed.

Lemma slice_from_tail (p t : string) : slice_from (p +:+ t) (len p) = t.
Proof.
  pose proof (len_nonneg p). pose proof (len_nonneg t).
  unfold slice_from, slice. rewrite !len_app, !clamp_in_range by lia.
  replace (len p + len t - len p) with (len t) by lia.
  unfold len. rewrite !Nat2Z.id, substring_skip. apply substring_all.
Qed.

(** A text is its head, a slice and its tail, for offsets in order. *)
Lemma slice_split (s : string) (a b : Z) :
  0 <= a <= b → b <= len s →
  s = slice_to s a +:+ slice s a b +:+ slice_from s b.
Proof.
  intros Hab Hb. unfold slice_to, slice_from, slice.
  rewrite !clamp_in_range by (unfold len in *; lia).
  rewrite Z.sub_0_r. unfold len in *.
  replace (Z.to_nat 0) with 0%nat by lia.
  replace (Z.to_nat (b - a)) with (Z.to_nat b - Z.to_nat a)%nat by lia.
  replace (Z.to_nat (Z.of_nat (String.length s) - b))
    with (String.length s - Z.to_nat b)%nat by lia.
  apply substring_split. lia.
Qed.

(** ** Paths *)

Lemma last_char_app (s t : string) (c : ascii) :
  last_char_of t = Some c → last_char_of (s +:+ t) = Some c.
Proof.
  intros Ht. induction s as [|a s IH]; [done|].
  rewrite app_cons. simpl. destruct (s +:+ t); [discriminate IH | exact IH].
Qed.

Section Paths.
Variable cfg : config.

Lemma json_ddb_distinct (db_name : string) :
  json_path cfg db_name ≠ ddb_path cfg db_name.
Proof.
  unfold json_path, ddb_path. intros Heq.
  do 3 apply String.app_inj in Heq. discriminate Heq.
Qed.

Lemma index_json_distinct (db_name : string) :
  index_path cfg db_name ≠ json_path cfg db_name.
Proof.
  intros Heq. apply (f_equal last_char_of) in Heq.
  unfold index_path, json_path in Heq.
  rewrite (last_char_app _ _ "x"), (last_char_app _ _ "n") in Heq;
    [discriminate Heq | repeat (apply last_char_app); done ..].
Qed.

Lemma index_ddb_distinct (db_name : string) :
  index_path cfg db_name ≠ ddb_path cfg db_name.
Proof.
  intros Heq. apply (f_equal last_char_of) in Heq.
  unfold index_path, ddb_path in Heq.
  rewrite (last_char_app _ _ "x"), (last_char_app _ _ "b") in Heq;
    [discriminate Heq | repeat (apply last_char_app); done ..].
Qed.

End Paths.

(** ** The monad *)

Lemma bind_ok {A B : Type} (m : io A) (k : A → io B) (σ σ' : fs) (a : A) :
  m σ = (Ok a, σ') → (m ≫= k) σ = k a σ'.
Proof. intros Hm. unfold mbind, io_bind. by rewrite Hm. Qed.

Lemma bind_raise {A B : Type} (m : io A) (k : A → io B) (σ σ' : fs) (e : exn) :
  m σ = (Raise e, σ') → (m ≫= k) σ = (Raise e, σ').
Proof. intros Hm. unfold mbind, io_bind. by rewrite Hm. Qed.

Lemma bind_ok_inv {A B : Type} (m : io A) (k : A → io B) (σ σ' : fs) (b : B) :
  (m ≫= k) σ = (Ok b, σ') → ∃ a σ1, m σ = (Ok a, σ1) ∧ k a σ1 = (Ok b, σ').
Proof.
  unfold mbind, io_bind. destruct (m σ) as [[a|e] σ1]; [eauto | discriminate].
Qed.

Lemma fs_eta (σ : fs) : Fs (files σ) (unwritable σ) = σ.
Proof. by destruct σ. Qed.

(** ** Paths of different databases *)

Lemma app_inj_r (s1 s2 t : string) : s1 +:+ t = s2 +:+ t → s1 = s2.
Proof.
  revert s2. induction s1 as [|c s1 IH]; intros [|c' s2] Heq.
  - done.
  - apply (f_equal String.length) in Heq.
    rewrite app_nil, app_cons in Heq. simpl in Heq. rewrite length_app in Heq. lia.
  - apply (f_equal String.length) in Heq.
    rewrite app_nil, app_cons in Heq. simpl in Heq. rewrite length_app in Heq. lia.
  - rewrite !app_cons in Heq. injection Heq as -> Heq. f_equal. by apply IH.
Qed.

Lemma str_replace_app (old : ascii) (new s t : string) :
  str_replace old new (s +:+ t) = str_replace old new s +:+ str_replace old new t.
Proof.
  induction s as [|c s IH]; [done|].
  rewrite app_cons. simpl. destruct (Ascii.eqb c old).
  - by rewrite IH, app_assoc_s.
  - by rewrite IH, app_cons.
Qed.

(** What [replace('/', '___')] gives holds no slash: a second pass changes
    nothing. *)
Lemma slash_replace_idem (s : string) :
  str_replace "/" "___" (str_replace "/" "___" s) = str_replace "/" "___" s.
Proof.
  induction s as [|c s IH]; [done|].
  simpl. destruct (Ascii.eqb c "/") eqn:Hc.
  - by rewrite str_replace_app, IH.
  - simpl. by rewrite Hc, IH.
Qed.

(** A text that does not hold the character is left as it is. *)
Lemma str_replace_absent (old : ascii) (new s : string) :
  (∀ i, String.get i s ≠ Some old) → str_replace old new s = s.
Proof.
  induction s as [|c s IH]; [done|]. intros Hget. simpl.
  destruct (Ascii.eqb_spec c old) as [->|_].
  - by destruct (Hget 0%nat).
  - f_equal. apply IH. intros i. apply (Hget (S i)).
Qed.

Section PathFacts.
Variable cfg : config.

Lemma json_path_inj (db db' : string) :
  json_path cfg db = json_path cfg db' → db = db'.
Proof.
  unfold json_path. intros Heq.
  do 2 apply String.app_inj in Heq. by apply app_inj_r in Heq.
Qed.

Lemma ddb_path_inj (db db' : string) :
  ddb_path cfg db = ddb_path cfg db' → db = db'.
Proof.
  unfold ddb_path. intros Heq.
  do 2 apply String.app_inj in Heq. by apply app_inj_r in Heq.
Qed.

Lemma json_ddb_cross (db db' : string) : json_path cfg db ≠ ddb_path cfg db'.
Proof.
  intros Heq. apply (f_equal last_char_of) in Heq.
  unfold json_path, ddb_path in Heq.
  rewrite (last_char_app _ _ "n"), (last_char_app _ _ "b") in Heq;
    [discriminate Heq | repeat (apply last_char_app); done ..].
Qed.

Lemma index_json_cross (db db' : string) : index_path cfg db ≠ json_path cfg db'.
Proof.
  intros Heq. apply (f_equal last_char_of) in Heq.
  unfold index_path, json_path in Heq.
  rewrite (last_char_app _ _ "x"), (last_char_app _ _ "n") in Heq;
    [discriminate Heq | repeat (apply last_char_app); done ..].
Qed.

Lemma index_ddb_cross (db db' : string) : index_path cfg db ≠ ddb_path cfg db'.
Proof.
  intros Heq. apply (f_equal last_char_of) in Heq.
  unfold index_path, ddb_path in Heq.
  rewrite (last_char_app _ _ "x"), (last_char_app _ _ "b") in Heq;
    [discriminate Heq | repeat (apply last_char_app); done ..].
Qed.

(** The two document paths of a database are those of no other database. *)
Lemma document_paths_apart (db db' : string) :
  db ≠ db' →
  json_path cfg db' ≠ json_path cfg db ∧ json_path cfg db' ≠ ddb_path cfg db
  ∧ ddb_path cfg db' ≠ json_path cfg db ∧ ddb_path cfg db' ≠ ddb_path cfg db.
Proof.
  intros Hne. split_and!.
  - intros Heq. by apply json_path_inj in Heq.
  - apply json_ddb_cross.
  - intros Heq. by apply (json_ddb_cross db db').
  - intros Heq. by apply ddb_path_inj in Heq.
Qed.

End PathFacts.

(** ** The engine, function by function *)

Section EngineFacts.
Context {L : Library} {U : Scanner}.
Variable cfg : config.

Lemma path_exists_some (path : string) (b : bytes) (σ : fs) :
  files σ !! path = Some b → path_exists path σ = (Ok true, σ).
Proof.
  intros Hp. unfold path_exists. rewrite Hp.
  by rewrite bool_decide_eq_true_2 by eauto.
Qed.

Lemma path_exists_none (path : string) (σ : fs) :
  files σ !! path = None → path_exists path σ = (Ok false, σ).
Proof.
  intros Hp. unfold path_exists. rewrite Hp.
  rewrite bool_decide_eq_false_2; [done|]. by intros [? ?].
Qed.

Lemma db_paths_unfold (db_name : string) (σ : fs) :
  db_paths cfg db_name σ =
    (Ok (json_path cfg db_name,
         bool_decide (is_Some (files σ !! json_path cfg db_name)),
         ddb_path cfg db_name,
         bool_decide (is_Some (files σ !! ddb_path cfg db_name))), σ).
Proof. reflexivity. Qed.

(** [read_file] computes [read_document] of what the two paths hold, and
    leaves the file system alone. *)
Lemma read_file_unfold (db_name : string) (as_bytes : bool) (σ : fs) :
  read_file cfg db_name as_bytes σ =
    (read_document as_bytes (files σ !! json_path cfg db_name)
       (files σ !! ddb_path cfg db_name), σ).
Proof.
  unfold read_file. rewrite (bind_ok _ _ _ _ _ (db_paths_unfold db_name σ)).
  unfold read_document, read_text, read_bytes, as_data, as_file, orelse.
  destruct (files σ !! json_path cfg db_name) as [bj|] eqn:Hj,
    (files σ !! ddb_path cfg db_name) as [bd|] eqn:Hd; simpl;
    unfold mbind, io_bind, read_bytes; rewrite ?Hj, ?Hd; try done.
  - destruct as_bytes; simpl; rewrite Hj; [done|]. by destruct (bytes_decode bj).
  - destruct (zlib_decompress bd) as [d|]; [|done]. simpl.
    destruct as_bytes; [done|]. by destruct (bytes_decode d).
Qed.

Lemma read_index_file_unfold (db_name : string) (σ : fs) :
  read_index_file cfg db_name σ =
    (match files σ !! index_path cfg db_name with
     | None => Ok ∅
     | Some b =>
         match orjson_loads_index b with
         | Some m => Ok m
         | None => Raise JSONDecodeError
         end
     end, σ).
Proof.
  unfold read_index_file.
  destruct (files σ !! index_path cfg db_name) as [b|] eqn:Hi.
  - rewrite (bind_ok _ _ _ _ _ (path_exists_some _ _ _ Hi)). simpl.
    unfold mbind, io_bind, read_bytes, orelse. rewrite Hi.
    by destruct (orjson_loads_index b).
  - by rewrite (bind_ok _ _ _ _ _ (path_exists_none _ _ Hi)).
Qed.

Lemma write_index_file_unfold (index_data : gmap string index_entry)
    (db_name key : string) (e : index_entry) (σ : fs) :
  let '(start_index, end_index, indent_level, indent_with, value_hash) := e in
  write_index_file cfg index_data db_name key start_index end_index
      indent_level indent_with value_hash σ =
    if bool_decide (index_path cfg db_name ∈ unwritable σ)
    then (Raise PermissionError, σ)
    else (Ok (<[key := e]> index_data),
          with_index cfg db_name (<[key := e]> index_data) σ).
Proof.
  destruct e as [[[[s en] il] iw] h].
  unfold write_index_file, with_index, mbind, io_bind, write_bytes.
  by case_bool_decide.
Qed.

(** The file system with the index file written reads the same document and
    the index that was written. *)
Lemma read_file_with_index (db_name : string) (as_bytes : bool)
    (m : gmap string index_entry) (σ : fs) :
  fst (read_file cfg db_name as_bytes (with_index cfg db_name m σ)) =
    fst (read_file cfg db_name as_bytes σ).
Proof.
  rewrite !read_file_unfold. unfold with_index. simpl.
  rewrite !lookup_insert_ne; [done | apply index_ddb_distinct | apply index_json_distinct].
Qed.

Lemma read_index_file_with_index (db_name : string)
    (m : gmap string index_entry) (σ : fs) :
  orjson_loads_index (orjson_dumps_index m) = Some m →
  fst (read_index_file cfg db_name (with_index cfg db_name m σ)) = Ok m.
Proof.
  intros Hlaw. rewrite read_index_file_unfold. unfold with_index. simpl.
  by rewrite lookup_insert_eq, Hlaw.
Qed.

Lemma read_file_state (db_name : string) (as_bytes : bool) (σ : fs) :
  snd (read_file cfg db_name as_bytes σ) = σ.
Proof. by rewrite read_file_unfold. Qed.

Lemma read_index_file_state (db_name : string) (σ : fs) :
  snd (read_index_file cfg db_name σ) = σ.
Proof. by rewrite read_index_file_unfold. Qed.


Lemma partial_read_scan_unfold (db_name key : string) (as_handle : bool)
    (data : string) (index_data : gmap string index_entry) (σ : fs) :
  partial_read_scan cfg db_name key as_handle data index_data σ =
    if find_outermost_json_key_index data (json_key_of key) =? -1
    then (Raise KeyError, σ)
    else
      match scan_value_start data key with
      | None => (Raise IndexError, σ)
      | Some value_start_index =>
          let e := scan_entry data key value_start_index in
          if bool_decide (index_path cfg db_name ∈ unwritable σ)
          then (Raise PermissionError, σ)
          else (decoded as_handle db_name key data e (<[key := e]> index_data),
                with_index cfg db_name (<[key := e]> index_data) σ)
      end.
Proof.
  unfold partial_read_scan, scan_value_start, scan_entry.
  destruct (_ =? -1); [done|].
  unfold mbind at 1, io_bind at 1, orelse.
  destruct (str_index data _) as [c|]; [|done]. simpl.
  destruct (detect_indentation_in_json_string data _) as [il iw] eqn:Hdet.
  set (vs := _ + (if Ascii.eqb c " " then 1 else 0)).
  set (ve := seek_index_through_value data vs).
  pose proof (write_index_file_unfold index_data db_name key
                (vs, ve, il, iw, span_hash data vs ve) σ) as Hw.
  simpl in Hw. unfold mbind at 1, io_bind at 1. unfold span_hash in Hw.
  rewrite Hw. case_bool_decide; [done|].
  unfold decoded, handle_of, mbind, io_bind, orelse.
  by destruct (orjson_loads (slice data vs ve)).
Qed.

Lemma partial_read_unfold (db_name key : string) (as_handle : bool) (σ : fs) :
  partial_read cfg db_name key as_handle σ =
    match fst (read_file cfg db_name false σ) with
    | Raise e => (Raise e, σ)
    | Ok data =>
        match fst (read_index_file cfg db_name σ) with
        | Raise e => (Raise e, σ)
        | Ok index_data =>
            match index_data !! key with
            | Some e =>
                if decide (entry_matches data e)
                then (decoded as_handle db_name key data e index_data, σ)
                else partial_read_scan cfg db_name key as_handle data index_data σ
            | None => partial_read_scan cfg db_name key as_handle data index_data σ
            end
        end
    end.
Proof.
  unfold partial_read.
  pose proof (read_file_state db_name false σ) as Hs.
  destruct (read_file cfg db_name false σ) as [[data|e] σ'] eqn:Hr;
    simpl in Hs; subst σ'; simpl;
    [rewrite (bind_ok _ _ _ _ _ Hr) | by rewrite (bind_raise _ _ _ _ _ Hr)].
  pose proof (read_index_file_state db_name σ) as Hs.
  destruct (read_index_file cfg db_name σ) as [[index_data|e] σ'] eqn:Hi;
    simpl in Hs; subst σ'; simpl;
    [rewrite (bind_ok _ _ _ _ _ Hi) | by rewrite (bind_raise _ _ _ _ _ Hi)].
  destruct (index_data !! key) as [[[[[s en] il] iw] h]|]; [|done].
  unfold entry_matches, span_hash, decoded, handle_of.
  destruct (String.eqb_spec h (sha256_hexdigest (str_encode (slice data s en))))
    as [Heq|Hne].
  - rewrite decide_True by done.
    unfold mbind, io_bind, orelse.
    by destruct (orjson_loads (slice data s en)).
  - by rewrite decide_False by done.
Qed.

Lemma write_dump_unfold (db_name : string) (dump : pydata) (σ : fs) :
  write_dump cfg db_name dump σ =
    if bool_decide (write_path cfg db_name ∈ unwritable σ)
    then (Raise PermissionError,
          Fs (delete (other_path cfg db_name) (files σ)) (unwritable σ))
    else (Ok (),
          Fs (<[write_path cfg db_name := stored_bytes cfg dump]>
                (delete (other_path cfg db_name) (files σ)))
             (unwritable σ)).
Proof.
  unfold write_dump. rewrite (bind_ok _ _ _ _ _ (db_paths_unfold db_name σ)).
  unfold write_path, other_path, stored_bytes.
  assert (∀ p, (when (bool_decide (is_Some (files σ !! p))) (remove p)) σ =
            (Ok (), Fs (delete p (files σ)) (unwritable σ))) as Hrm.
  { intros p. unfold when, remove.
    destruct (files σ !! p) as [b|] eqn:Hp.
    - rewrite bool_decide_eq_true_2 by eauto. simpl. by rewrite Hp.
    - rewrite bool_decide_eq_false_2 by (by intros [? ?]). simpl.
      rewrite delete_id by done. by rewrite fs_eta. }
  destruct (use_compression cfg).
  - unfold mbind at 1, io_bind at 1. unfold mbind at 1, io_bind at 1.
    rewrite Hrm. simpl. unfold write_bytes. simpl. by case_bool_decide.
  - unfold mbind at 1, io_bind at 1. unfold mbind at 1, io_bind at 1.
    rewrite Hrm. simpl. unfold write_bytes. simpl.
    destruct dump; simpl; by case_bool_decide.
Qed.

Lemma partial_write_unfold (pf : PartialFileHandle) (σ : fs) :
  partial_write cfg pf σ =
    match partial_serialize cfg (value (partial_dict pf)) with
    | Raise e => (Raise e, σ)
    | Ok partial_dump =>
        let index_data :=
          <[key (partial_dict pf) := written_entry pf partial_dump]> (index_data pf) in
        if bool_decide (index_path cfg (db_name pf) ∈ unwritable σ)
        then (Raise PermissionError, σ)
        else
          write_dump cfg (db_name pf)
            (PStr (prefix (partial_dict pf) +:+ new_dump pf partial_dump
                     +:+ suffix (partial_dict pf)))
            (with_index cfg (db_name pf) index_data σ)
    end.
Proof.
  unfold partial_write. unfold mbind at 1, io_bind at 1, lift.
  destruct (partial_serialize cfg (value (partial_dict pf))) as [d|e]; [|done].
  pose proof (write_index_file_unfold (index_data pf) (db_name pf)
                (key (partial_dict pf)) (written_entry pf d) σ) as Hw.
  unfold written_entry in Hw. unfold mbind at 1, io_bind at 1.
  unfold new_dump in *. rewrite Hw. by case_bool_decide.
Qed.


(** ** The document representation layer *)

(** The only exception either way of handing out bytes raises. *)
Lemma as_data_error (as_bytes : bool) (b : bytes) (e : exn) :
  as_data as_bytes b = Raise e → e = UnicodeDecodeError.
Proof.
  unfold as_data. destruct as_bytes; [discriminate|].
  destruct (bytes_decode b); [discriminate | congruence].
Qed.

Lemma as_file_error (as_bytes : bool) (b : bytes) (e : exn) :
  as_file as_bytes b = Raise e → e = UnicodeDecodeError.
Proof.
  unfold as_file. destruct as_bytes; [discriminate|].
  destruct (bytes_decode b); [discriminate | congruence].
Qed.

(** C5: [read_file] leaves the file system alone; it fails with
    [FileExistsError] exactly when both representations exist, with
    [FileNotFoundError] exactly when neither does, and otherwise returns what
    the one representation holds: the plain file as it is read, in binary
    mode or in text mode, the compressed one decompressed (and decoded unless
    [as_bytes]). *)
Theorem read_file_characterization (db_name : string) (as_bytes : bool) (σ : fs) :
  let plain := files σ !! json_path cfg db_name in
  let compressed := files σ !! ddb_path cfg db_name in
  let r := fst (read_file cfg db_name as_bytes σ) in
  snd (read_file cfg db_name as_bytes σ) = σ
  ∧ (r = Raise FileExistsError ↔ is_Some plain ∧ is_Some compressed)
  ∧ (r = Raise FileNotFoundError ↔ plain = None ∧ compressed = None)
  ∧ (∀ b, plain = Some b → compressed = None → r = as_file as_bytes b)
  ∧ (∀ b, plain = None → compressed = Some b →
       r = match zlib_decompress b with
           | Some d => as_data as_bytes d
           | None => Raise ZlibError
           end).
Proof.
  intros plain compressed r. subst r. rewrite read_file_unfold. simpl.
  fold plain compressed. split; [done|].
  destruct plain as [bj|], compressed as [bd|]; simpl.
  - split_and!; [by eauto | split; [done | by intros [? _]] | done | done].
  - split_and!.
    + split; [intros H; by apply as_file_error in H | by intros [_ [? ?]]].
    + split; [intros H; by apply as_file_error in H | by intros [? _]].
    + by intros b [= <-] _.
    + done.
  - split_and!.
    + split; [|by intros [[? ?] _]].
      destruct (zlib_decompress bd); [intros H; by apply as_data_error in H | done].
    + split; [|by intros [_ ?]].
      destruct (zlib_decompress bd); [intros H; by apply as_data_error in H | done].
    + done.
    + intros b _ [= <-]. by destruct (zlib_decompress bd).
  - split_and!; [split; [done | by intros [[? ?] _]] | done | done | done].
Qed.

Lemma write_other_distinct (db_name : string) :
  write_path cfg db_name ≠ other_path cfg db_name.
Proof.
  unfold write_path, other_path. pose proof (json_ddb_distinct cfg db_name).
  destruct (use_compression cfg); congruence.
Qed.

Lemma index_write_distinct (db_name : string) :
  index_path cfg db_name ≠ write_path cfg db_name.
Proof.
  unfold write_path. pose proof (index_json_distinct cfg db_name).
  pose proof (index_ddb_distinct cfg db_name).
  destruct (use_compression cfg); congruence.
Qed.

Lemma index_other_distinct (db_name : string) :
  index_path cfg db_name ≠ other_path cfg db_name.
Proof.
  unfold other_path. pose proof (index_json_distinct cfg db_name).
  pose proof (index_ddb_distinct cfg db_name).
  destruct (use_compression cfg); congruence.
Qed.

(** What a [write_dump] that returns has stored. *)
Lemma write_dump_ok (db_name : string) (dump : pydata) (σ σ' : fs) :
  write_dump cfg db_name dump σ = (Ok (), σ') →
  σ' = Fs (<[write_path cfg db_name := stored_bytes cfg dump]>
             (delete (other_path cfg db_name) (files σ)))
          (unwritable σ).
Proof.
  rewrite write_dump_unfold. case_bool_decide; [discriminate|]. congruence.
Qed.

Lemma one_representation_written (db_name : string) (b : bytes)
    (m : gmap string bytes) (u : gset string) :
  one_representation cfg db_name
    (Fs (<[write_path cfg db_name := b]> (delete (other_path cfg db_name) m)) u).
Proof.
  pose proof (json_ddb_distinct cfg db_name) as Hne.
  unfold one_representation, write_path, other_path. simpl.
  destruct (use_compression cfg); [right | left].
  - rewrite lookup_insert_eq, lookup_insert_ne, lookup_delete_eq by done. eauto.
  - rewrite lookup_insert_eq, lookup_insert_ne, lookup_delete_eq by done. eauto.
Qed.

Lemma write_ok (db_name : string) (db : jvalue) (σ σ' : fs) :
  write cfg db_name db σ = (Ok (), σ') →
  ∃ dump, write_dump cfg db_name dump σ = (Ok (), σ').
Proof.
  unfold write. unfold mbind at 1, io_bind at 1, lift.
  destruct (write_serialize cfg db) as [dump|e]; [eauto | discriminate].
Qed.

Lemma partial_write_ok (pf : PartialFileHandle) (σ σ' : fs) :
  partial_write cfg pf σ = (Ok (), σ') →
  ∃ partial_dump,
    partial_serialize cfg (value (partial_dict pf)) = Ok partial_dump
    ∧ (index_path cfg (db_name pf) ∉ unwritable σ)
    ∧ write_dump cfg (db_name pf)
        (PStr (prefix (partial_dict pf) +:+ new_dump pf partial_dump
                 +:+ suffix (partial_dict pf)))
        (with_index cfg (db_name pf)
           (<[key (partial_dict pf) := written_entry pf partial_dump]>
              (index_data pf)) σ) = (Ok (), σ').
Proof.
  rewrite partial_write_unfold.
  destruct (partial_serialize cfg (value (partial_dict pf))) as [d|e];
    [|discriminate].
  simpl. case_bool_decide; [discriminate|]. eauto.
Qed.

(** C3: after a write that returns ([write_dump], [write] or
    [partial_write]), the configured representation of the database exists
    and the other one does not, so exactly one of the two files exists. *)
Theorem write_leaves_one_representation (db : string) (σ σ' : fs) :
  (∃ dump, write_dump cfg db dump σ = (Ok (), σ'))
  ∨ (∃ v, write cfg db v σ = (Ok (), σ'))
  ∨ (∃ pf, db_name pf = db ∧ partial_write cfg pf σ = (Ok (), σ')) →
  is_Some (files σ' !! write_path cfg db)
  ∧ files σ' !! other_path cfg db = None
  ∧ one_representation cfg db σ'.
Proof.
  intros Hop.
  assert (∃ dump σ0, write_dump cfg db dump σ0 = (Ok (), σ')) as (dump & σ0 & Hw).
  { destruct Hop as [[dump Hw] | [[v Hw] | (pf & <- & Hw)]].
    - eauto.
    - apply write_ok in Hw as [dump Hw]. eauto.
    - apply partial_write_ok in Hw as (d & _ & _ & Hw). eauto. }
  apply write_dump_ok in Hw as ->. simpl.
  rewrite lookup_insert_eq, lookup_insert_ne, lookup_delete_eq
    by apply write_other_distinct.
  split; [eauto | split; [done | apply one_representation_written]].
Qed.

(** ** Partial reads *)

Lemma scan_entry_matches (data key : string) (value_start_index : Z) :
  entry_matches data (scan_entry data key value_start_index).
Proof.
  unfold scan_entry.
  by destruct (detect_indentation_in_json_string data _) as [il iw].
Qed.

(** The path through the index: a matching entry is decoded as it stands and
    nothing is written. *)
Lemma partial_read_hit (db_name key : string) (as_handle : bool) (σ : fs)
    (data : string) (index_data : gmap string index_entry) (e : index_entry) :
  fst (read_file cfg db_name false σ) = Ok data →
  fst (read_index_file cfg db_name σ) = Ok index_data →
  index_data !! key = Some e →
  entry_matches data e →
  partial_read cfg db_name key as_handle σ =
    (decoded as_handle db_name key data e index_data, σ).
Proof.
  intros Hd Hi He Hm. rewrite partial_read_unfold, Hd, Hi, He.
  by rewrite decide_True.
Qed.

(** Without a matching entry the whole text is searched. *)
Lemma partial_read_miss (db_name key : string) (as_handle : bool) (σ : fs)
    (data : string) (index_data : gmap string index_entry) :
  fst (read_file cfg db_name false σ) = Ok data →
  fst (read_index_file cfg db_name σ) = Ok index_data →
  (∀ e, index_data !! key = Some e → ¬ entry_matches data e) →
  partial_read cfg db_name key as_handle σ =
    partial_read_scan cfg db_name key as_handle data index_data σ.
Proof.
  intros Hd Hi Hno. rewrite partial_read_unfold, Hd, Hi.
  destruct (index_data !! key) as [e|]; [|done].
  rewrite decide_False; [done | by apply Hno].
Qed.

(** C4: when no index entry for the key matches the text and the scan finds
    no key token, [partial_read] raises [KeyError] and the file system, the
    index file with it, is as it was. *)
Theorem key_not_found_leaves_index (db_name key : string) (as_handle : bool)
    (σ : fs) (data : string) (index_data : gmap string index_entry) :
  fst (read_file cfg db_name false σ) = Ok data →
  fst (read_index_file cfg db_name σ) = Ok index_data →
  (∀ e, index_data !! key = Some e → ¬ entry_matches data e) →
  find_outermost_json_key_index data (json_key_of key) = -1 →
  partial_read cfg db_name key as_handle σ = (Raise KeyError, σ)
  ∧ fst (read_index_file cfg db_name
           (snd (partial_read cfg db_name key as_handle σ))) = Ok index_data.
Proof.
  intros Hd Hi Hno Hfind.
  rewrite (partial_read_miss _ _ _ _ _ _ Hd Hi Hno), partial_read_scan_unfold.
  by rewrite Hfind.
Qed.

Lemma decoded_scan_entry (as_handle : bool) (db_name key data : string)
    (value_start_index : Z) (index_data : gmap string index_entry) :
  decoded as_handle db_name key data
      (scan_entry data key value_start_index) index_data =
    match orjson_loads
            (slice data value_start_index
               (seek_index_through_value data value_start_index)) with
    | Some v =>
        Ok (finish as_handle v
              (handle_of db_name key data
                 (scan_entry data key value_start_index) v index_data))
    | None => Raise JSONDecodeError
    end.
Proof.
  unfold decoded, scan_entry.
  by destruct (detect_indentation_in_json_string data _) as [il iw].
Qed.

Section Laws.

(** What the engine needs of the libraries: reading gives back what was
    written. *)
Hypothesis index_round_trip :
  ∀ m, orjson_loads_index (orjson_dumps_index m) = Some m.
Hypothesis text_round_trip : ∀ s, bytes_decode (str_encode s) = Some s.
Hypothesis zlib_round_trip :
  ∀ b level, zlib_decompress (zlib_compress b level) = Some b.

(** After the scan has written its entry, the file system reads the same
    document and an index whose entry for the key matches it. *)
Lemma partial_read_after_scan (db_name key : string) (as_handle : bool)
    (σ : fs) (data : string) (index_data : gmap string index_entry)
    (value_start_index : Z) :
  fst (read_file cfg db_name false σ) = Ok data →
  let e := scan_entry data key value_start_index in
  let σ' := with_index cfg db_name (<[key := e]> index_data) σ in
  fst (read_file cfg db_name false σ') = Ok data
  ∧ fst (read_index_file cfg db_name σ') = Ok (<[key := e]> index_data)
  ∧ partial_read cfg db_name key as_handle σ' =
      (decoded as_handle db_name key data e (<[key := e]> index_data), σ').
Proof.
  intros Hd e σ'.
  assert (fst (read_file cfg db_name false σ') = Ok data) as Hd'
    by (subst σ'; by rewrite read_file_with_index).
  assert (fst (read_index_file cfg db_name σ') = Ok (<[key := e]> index_data))
    as Hi' by (subst σ'; by apply read_index_file_with_index).
  split_and!; [done | done |].
  apply (partial_read_hit _ _ _ _ _ _ _ Hd' Hi').
  - apply lookup_insert_eq.
  - apply scan_entry_matches.
Qed.

(** C2: an index entry for the key whose hash is not that of the text at its
    offsets is not used: [partial_read] is the search through the entire
    file.  When that search finds the key, it returns the value decoded from
    the span it locates, with no error, and the index file then holds for the
    key a fresh entry whose hash is that of this span. *)
Theorem stale_entry_falls_back (db_name key : string) (as_handle : bool)
    (σ : fs) (data : string) (index_data : gmap string index_entry)
    (e : index_entry) :
  fst (read_file cfg db_name false σ) = Ok data →
  fst (read_index_file cfg db_name σ) = Ok index_data →
  index_data !! key = Some e →
  ¬ entry_matches data e →
  partial_read cfg db_name key as_handle σ =
    partial_read_scan cfg db_name key as_handle data index_data σ
  ∧ ∀ value_start_index v,
      find_outermost_json_key_index data (json_key_of key) ≠ -1 →
      scan_value_start data key = Some value_start_index →
      index_path cfg db_name ∉ unwritable σ →
      orjson_loads
        (slice data value_start_index
           (seek_index_through_value data value_start_index)) = Some v →
      let e' := scan_entry data key value_start_index in
      let σ' := with_index cfg db_name (<[key := e']> index_data) σ in
      partial_read cfg db_name key as_handle σ =
        (Ok (finish as_handle v
               (handle_of db_name key data e' v (<[key := e']> index_data))), σ')
      ∧ entry_matches data e'
      ∧ fst (read_index_file cfg db_name σ') = Ok (<[key := e']> index_data).
Proof.
  intros Hd Hi He Hstale.
  assert (partial_read cfg db_name key as_handle σ =
            partial_read_scan cfg db_name key as_handle data index_data σ) as Hscan.
  { apply partial_read_miss; [done | done |].
    intros e0 He0. rewrite He in He0. by simplify_eq. }
  split; [done|].
  intros vs v Hfound Hvs Hw Hv e' σ'. subst e' σ'. split_and!.
  - rewrite Hscan, partial_read_scan_unfold, Hvs.
    apply Z.eqb_neq in Hfound. rewrite Hfound. cbv zeta.
    rewrite bool_decide_eq_false_2 by done.
    by rewrite decoded_scan_entry, Hv.
  - apply scan_entry_matches.
  - by apply read_index_file_with_index.
Qed.

(** How a [partial_read] ends: with an exception before anything is written,
    through a matching index entry, or through the scan and its write of the
    index file. *)
Lemma partial_read_cases (db_name key : string) (as_handle : bool) (σ : fs) :
  (∃ e, partial_read cfg db_name key as_handle σ = (Raise e, σ))
  ∨ (∃ data index_data e,
       fst (read_file cfg db_name false σ) = Ok data
       ∧ fst (read_index_file cfg db_name σ) = Ok index_data
       ∧ index_data !! key = Some e
       ∧ entry_matches data e
       ∧ partial_read cfg db_name key as_handle σ =
           (decoded as_handle db_name key data e index_data, σ))
  ∨ (∃ data index_data value_start_index,
       fst (read_file cfg db_name false σ) = Ok data
       ∧ fst (read_index_file cfg db_name σ) = Ok index_data
       ∧ (∀ e, index_data !! key = Some e → ¬ entry_matches data e)
       ∧ find_outermost_json_key_index data (json_key_of key) ≠ -1
       ∧ scan_value_start data key = Some value_start_index
       ∧ (index_path cfg db_name ∉ unwritable σ)
       ∧ let e := scan_entry data key value_start_index in
         partial_read cfg db_name key as_handle σ =
           (decoded as_handle db_name key data e (<[key := e]> index_data),
            with_index cfg db_name (<[key := e]> index_data) σ)).
Proof.
  pose proof (partial_read_unfold db_name key as_handle σ) as Hunf.
  destruct (fst (read_file cfg db_name false σ)) as [data|e] eqn:Hd; [|eauto].
  destruct (fst (read_index_file cfg db_name σ)) as [index_data|e] eqn:Hi; [|eauto].
  assert ((∀ e, index_data !! key = Some e → ¬ entry_matches data e) →
          partial_read cfg db_name key as_handle σ =
            partial_read_scan cfg db_name key as_handle data index_data σ →
          (∃ e, partial_read cfg db_name key as_handle σ = (Raise e, σ))
          ∨ (∃ vs,
              find_outermost_json_key_index data (json_key_of key) ≠ -1
              ∧ scan_value_start data key = Some vs
              ∧ (index_path cfg db_name ∉ unwritable σ)
              ∧ partial_read cfg db_name key as_handle σ =
                  (decoded as_handle db_name key data (scan_entry data key vs)
                     (<[key := scan_entry data key vs]> index_data),
                   with_index cfg db_name
                     (<[key := scan_entry data key vs]> index_data) σ)))
    as Hscan.
  { intros Hno ->. rewrite partial_read_scan_unfold.
    destruct (Z.eqb_spec (find_outermost_json_key_index data (json_key_of key)) (-1));
      [eauto|].
    destruct (scan_value_start data key) as [vs|]; [|eauto].
    cbv zeta. case_bool_decide; [eauto|]. right. eauto 10. }
  destruct (index_data !! key) as [e|] eqn:He.
  - destruct (decide (entry_matches data e)) as [Hm|Hm].
    + right. left. eauto 10.
    + destruct Hscan as [?|(vs & ? & ? & ? & ?)]; [| done | eauto |].
      * intros e0 He0. by simplify_eq.
      * right. right. exists data, index_data, vs. split_and!; try done.
        intros e0 He0. by simplify_eq.
  - destruct Hscan as [?|(vs & ? & ? & ? & ?)]; [done | done | eauto |].
    right. right. exists data, index_data, vs. split_and!; try done.
    intros e0 He0. by simplify_eq.
Qed.

(** C6: a second [partial_read] of the same key, with nothing written in
    between, returns what the first returned and leaves the file system, the
    index file with it, as the first left it.  When the first call returned a
    value, the index then holds an entry for the key whose hash is that of the
    text at its offsets, the entry the second call reads through. *)
Theorem partial_read_twice (db_name key : string) (as_handle : bool) (σ : fs) :
  let r := partial_read cfg db_name key as_handle σ in
  partial_read cfg db_name key as_handle (snd r) = r
  ∧ ∀ x, fst r = Ok x →
      ∃ data index_data e,
        fst (read_file cfg db_name false (snd r)) = Ok data
        ∧ fst (read_index_file cfg db_name (snd r)) = Ok index_data
        ∧ index_data !! key = Some e
        ∧ entry_matches data e.
Proof.
  intros r. subst r.
  destruct (partial_read_cases db_name key as_handle σ)
    as [[e Hr] | [(data & idx & e & Hd & Hi & He & Hm & Hr)
                 | (data & idx & vs & Hd & Hi & _ & _ & _ & _ & Hr)]];
    cbv zeta in *; rewrite Hr; simpl.
  - split; [done | discriminate].
  - split; [done | eauto 10].
  - destruct (partial_read_after_scan db_name key as_handle σ data idx vs Hd)
      as (Hd' & Hi' & Hhit).
    split; [exact Hhit|].
    intros x _. eexists _, _, _. split_and!; [exact Hd' | exact Hi' | |].
    + apply lookup_insert_eq.
    + apply scan_entry_matches.
Qed.

(** C7: after a [partial_write] that returns, the index file holds the
    handle's index mapping with, for the handle's key, the entry whose start
    is the length of the prefix, whose end is that plus the length of the
    indented dump, whose indentation is the handle's, and whose hash is that
    of the indented dump. *)
Theorem partial_write_index_entry (pf : PartialFileHandle) (σ σ' : fs) :
  partial_write cfg pf σ = (Ok (), σ') →
  ∃ partial_dump,
    partial_serialize cfg (value (partial_dict pf)) = Ok partial_dump
    ∧ let partial_dump :=
        reindent (indent_level pf) (indent_with pf) partial_dump in
      fst (read_index_file cfg (db_name pf) σ') =
        Ok (<[key (partial_dict pf) :=
                (len (prefix (partial_dict pf)),
                 len (prefix (partial_dict pf)) + len partial_dump,
                 indent_level pf, indent_with pf,
                 sha256_hexdigest (str_encode partial_dump))]> (index_data pf)).
Proof.
  intros Hw. apply partial_write_ok in Hw as (d & Hd & _ & Hw).
  exists d. split; [done|]. cbv zeta.
  apply write_dump_ok in Hw as ->.
  rewrite read_index_file_unfold. simpl.
  rewrite lookup_insert_ne by (intros Heq; by apply (index_write_distinct (db_name pf))).
  rewrite lookup_delete_ne by (intros Heq; by apply (index_other_distinct (db_name pf))).
  by rewrite lookup_insert_eq, index_round_trip.
Qed.

(** ** Partial writes *)

(** The document a returning [write_dump] of a text has stored reads back as
    that text, with its line ends translated if the file is the plain one. *)
Lemma read_file_after_write (db_name : string) (dump : string)
    (m : gmap string bytes) (u : gset string) :
  fst (read_file cfg db_name false
         (Fs (<[write_path cfg db_name := stored_bytes cfg (PStr dump)]>
                (delete (other_path cfg db_name) m)) u)) = Ok (reread cfg dump).
Proof.
  pose proof (json_ddb_distinct cfg db_name) as Hne.
  rewrite read_file_unfold.
  unfold write_path, other_path, stored_bytes, reread. simpl.
  destruct (use_compression cfg).
  - rewrite lookup_insert_ne, lookup_delete_eq, lookup_insert_eq by done.
    simpl. by rewrite zlib_round_trip, text_round_trip.
  - rewrite lookup_insert_eq, lookup_insert_ne, lookup_delete_eq by done.
    simpl. by rewrite text_round_trip.
Qed.

(** The document a returning [partial_write] leaves is the prefix, the
    indented dump and the suffix. *)
Lemma partial_write_document (pf : PartialFileHandle) (σ σ' : fs) :
  partial_write cfg pf σ = (Ok (), σ') →
  ∃ partial_dump,
    partial_serialize cfg (value (partial_dict pf)) = Ok partial_dump
    ∧ fst (read_file cfg (db_name pf) false σ') =
        Ok (reread cfg
              (prefix (partial_dict pf) +:+ new_dump pf partial_dump
                 +:+ suffix (partial_dict pf))).
Proof.
  intros Hw. apply partial_write_ok in Hw as (d & Hd & _ & Hw).
  exists d. split; [done|].
  apply write_dump_ok in Hw as ->. apply read_file_after_write.
Qed.

(** The index a returning [partial_write] leaves holds the written entry, and
    that entry matches the document as it was written. *)
Lemma partial_write_state (pf : PartialFileHandle) (σ σ' : fs) :
  partial_write cfg pf σ = (Ok (), σ') →
  ∃ partial_dump,
    partial_serialize cfg (value (partial_dict pf)) = Ok partial_dump
    ∧ let data :=
        prefix (partial_dict pf) +:+ new_dump pf partial_dump
          +:+ suffix (partial_dict pf) in
      let index_data :=
        <[key (partial_dict pf) := written_entry pf partial_dump]> (index_data pf) in
      fst (read_file cfg (db_name pf) false σ') = Ok (reread cfg data)
      ∧ fst (read_index_file cfg (db_name pf) σ') = Ok index_data
      ∧ entry_matches data (written_entry pf partial_dump).
Proof.
  intros Hw.
  destruct (partial_write_document pf σ σ' Hw) as (d & Hd & Hdoc).
  apply partial_write_ok in Hw as (d' & Hd' & _ & Hw).
  rewrite Hd in Hd'. injection Hd' as <-.
  exists d. split; [done|]. cbv zeta.
  apply write_dump_ok in Hw as ->. split_and!.
  - apply read_file_after_write.
  - rewrite read_index_file_unfold. simpl.
    rewrite lookup_insert_ne
      by (intros Heq; by apply (index_write_distinct (db_name pf))).
    rewrite lookup_delete_ne
      by (intros Heq; by apply (index_other_distinct (db_name pf))).
    by rewrite lookup_insert_eq, index_round_trip.
  - unfold entry_matches, written_entry, span_hash. by rewrite slice_middle.
Qed.

(** C10, for the calls that leave the document as the entry describes it:
    after a [partial_read] that wrote the index or returned a value, and after
    a [partial_write] that returned and whose document reads back as it was
    written, the index file holds for the key an entry whose hash is the
    digest of the encoded slice of the document, as it now reads, between the
    entry's offsets; and a [partial_read] of the key that follows decodes that
    slice and writes nothing. *)
Theorem persisted_entry_matches (db k : string) (σ σ' : fs) :
  (∃ as_handle r,
     partial_read cfg db k as_handle σ = (r, σ') ∧ (σ' ≠ σ ∨ ∃ x, r = Ok x))
  ∨ (∃ pf partial_dump,
       db_name pf = db ∧ key (partial_dict pf) = k
       ∧ partial_write cfg pf σ = (Ok (), σ')
       ∧ partial_serialize cfg (value (partial_dict pf)) = Ok partial_dump
       ∧ let data :=
           prefix (partial_dict pf) +:+ new_dump pf partial_dump
             +:+ suffix (partial_dict pf) in
         reread cfg data = data) →
  ∃ data index_data start_index end_index indent_level indent_with,
    let e := (start_index, end_index, indent_level, indent_with,
              sha256_hexdigest (str_encode (slice data start_index end_index))) in
    fst (read_file cfg db false σ') = Ok data
    ∧ fst (read_index_file cfg db σ') = Ok index_data
    ∧ index_data !! k = Some e
    ∧ ∀ as_handle,
        partial_read cfg db k as_handle σ' =
          (decoded as_handle db k data e index_data, σ').
Proof.
  intros Hop.
  assert (∃ data index_data e,
            fst (read_file cfg db false σ') = Ok data
            ∧ fst (read_index_file cfg db σ') = Ok index_data
            ∧ index_data !! k = Some e
            ∧ entry_matches data e) as (data & idx & e & Hd & Hi & He & Hm).
  { destruct Hop as [(ah & r & Hr & Hwrote)
                    | (pf & d & <- & <- & Hw & Hser & Hstable)].
    - destruct (partial_read_cases db k ah σ)
        as [[e Hr'] | [(data & idx & e & Hd & Hi & He & Hm & Hr')
                     | (data & idx & vs & Hd & Hi & _ & _ & _ & _ & Hr')]];
        cbv zeta in *; rewrite Hr' in Hr; simplify_eq.
      + destruct Hwrote as [? | [x ?]]; done.
      + eauto 10.
      + destruct (partial_read_after_scan db k ah σ data idx vs Hd)
          as (Hd' & Hi' & _).
        eexists _, _, _. split_and!; [exact Hd' | exact Hi' | |].
        * apply lookup_insert_eq.
        * apply scan_entry_matches.
    - apply partial_write_state in Hw as (d' & Hser' & Hd & Hi & Hm).
      rewrite Hser in Hser'. injection Hser' as <-.
      cbv zeta in Hstable. rewrite Hstable in Hd.
      eexists _, _, _. split_and!; [exact Hd | exact Hi | | exact Hm].
      apply lookup_insert_eq. }
  destruct e as [[[[s en] il] iw] h]. simpl in Hm. subst h.
  exists data, idx, s, en, il, iw. cbv zeta. split_and!; try done.
  intros ah. by apply partial_read_hit.
Qed.


Lemma handle_of_fields (db_name key data : string) (start_index end_index il : Z)
    (iw h : string) (v : jvalue) (index_data : gmap string index_entry) :
  handle_of db_name key data (start_index, end_index, il, iw, h) v index_data =
    mkPartialFileHandle db_name
      (mkPartialDict (slice_to data start_index) key v (slice_from data end_index))
      il iw index_data.
Proof. reflexivity. Qed.

(** X19: where the index is in order, the read and the write compose.  For a
    document in which the scan locates the value of the key at offsets in
    order and within the text, and an index whose matching entry for the key,
    if it has one, is at these offsets, a [partial_read] as handle, the
    replacement of the handle's value, and a [partial_write] leave a document
    that reads as the text before the value, the indented dump of the new
    value, and the text after the value, with the line ends translated if the
    file is the plain one. *)
Theorem partial_write_round_trip (db k : string) (v : jvalue) (σ σ1 σ2 : fs)
    (data : string) (value_start_index : Z) (pf : PartialFileHandle) :
  let value_end_index := seek_index_through_value data value_start_index in
  fst (read_file cfg db false σ) = Ok data →
  scan_value_start data k = Some value_start_index →
  0 <= value_start_index <= value_end_index →
  value_end_index <= len data →
  (∀ index_data start_index end_index il iw h,
     fst (read_index_file cfg db σ) = Ok index_data →
     index_data !! k = Some (start_index, end_index, il, iw, h) →
     entry_matches data (start_index, end_index, il, iw, h) →
     start_index = value_start_index ∧ end_index = value_end_index) →
  partial_read cfg db k true σ = (Ok pf, σ1) →
  partial_write cfg (with_value pf v) σ1 = (Ok (), σ2) →
  ∃ partial_dump,
    partial_serialize cfg v = Ok partial_dump
    ∧ data = slice_to data value_start_index
               +:+ slice data value_start_index value_end_index
               +:+ slice_from data value_end_index
    ∧ fst (read_file cfg db false σ2) =
        Ok (reread cfg
              (slice_to data value_start_index
                 +:+ reindent (indent_level pf) (indent_with pf) partial_dump
                 +:+ slice_from data value_end_index)).
Proof.
  intros ve Hd Hvs Horder Hend Hidx Hread Hwrite.
  assert (db_name pf = db
          ∧ prefix (partial_dict pf) = slice_to data value_start_index
          ∧ suffix (partial_dict pf) = slice_from data ve) as (Hdb & Hpre & Hsuf).
  { destruct (partial_read_cases db k true σ)
      as [[e Hr'] | [(data' & idx & e & Hd' & Hi & He & Hm & Hr')
                   | (data' & idx & vs & Hd' & Hi & _ & _ & Hvs' & _ & Hr')]];
      cbv zeta in Hr'; rewrite Hr' in Hread;
      [discriminate Hread | rewrite Hd in Hd' ..];
      injection Hd' as <-; injection Hread as Hdec <-.
    - destruct e as [[[[s en] il] iw] h].
      destruct (Hidx idx s en il iw h Hi He Hm) as [-> ->].
      unfold decoded in Hdec.
      destruct (orjson_loads _); [|discriminate Hdec].
      injection Hdec as <-. done.
    - rewrite Hvs in Hvs'. injection Hvs' as <-.
      rewrite decoded_scan_entry in Hdec.
      destruct (orjson_loads _); [|discriminate Hdec].
      injection Hdec as <-. unfold scan_entry.
      by destruct (detect_indentation_in_json_string data _) as [il iw]. }
  apply partial_write_document in Hwrite as (d & Hser & Hdoc).
  exists d. split_and!.
  - exact Hser.
  - by apply slice_split.
  - simpl in Hdoc. unfold new_dump in Hdoc. simpl in Hdoc.
    by rewrite Hdb, Hpre, Hsuf in Hdoc.
Qed.

(** ** The two serializers *)

Hypothesis decode_strict : ∀ b s, bytes_decode b = Some s → str_encode s = b.
Hypothesis orjson_utf8 :
  ∀ v option b, orjson_dumps v option = Some b → is_Some (bytes_decode b).

(** C8: under every configuration, [partial_write] serializes a value to the
    bytes [write] serializes it to, and fails where [write] fails. *)
Theorem serializers_agree (v : jvalue) :
  match write_serialize cfg v with
  | Ok dump =>
      ∃ partial_dump,
        partial_serialize cfg v = Ok partial_dump
        ∧ str_encode partial_dump = dump_bytes dump
  | Raise e => partial_serialize cfg v = Raise e
  end.
Proof.
  unfold write_serialize, partial_serialize.
  destruct (use_orjson cfg).
  - cbv zeta. destruct (orjson_dumps v _) as [b|] eqn:Hb; [|done].
    destruct (orjson_utf8 _ _ _ Hb) as [s Hs]. rewrite Hs.
    exists s. split; [done|]. by apply decode_strict.
  - destruct (json_dumps v _ _) as [s|]; [|done]. by exists s.
Qed.

(** * The rest of the module

    [read], [write] and [write_dump] on their own, the index functions, and
    what [partial_read] and [partial_write] do besides the above. *)

(** ** Whole documents: [read], [write] and [write_dump] *)

Lemma read_unfold (db_name : string) (σ : fs) :
  read cfg db_name σ =
    (match fst (read_file cfg db_name true σ) with
     | Ok b => loaded b
     | Raise e => Raise e
     end, σ).
Proof.
  unfold read. pose proof (read_file_state db_name true σ) as Hs.
  destruct (read_file cfg db_name true σ) as [[b|e] σ'] eqn:Hr;
    simpl in Hs; subst σ'; simpl;
    [rewrite (bind_ok _ _ _ _ _ Hr) | by rewrite (bind_raise _ _ _ _ _ Hr)].
  unfold loaded, orelse. by destruct (orjson_loads_bytes b).
Qed.

Lemma write_unfold (db_name : string) (db : jvalue) (σ : fs) :
  write cfg db_name db σ =
    match write_serialize cfg db with
    | Ok dump => write_dump cfg db_name dump σ
    | Raise e => (Raise e, σ)
    end.
Proof.
  unfold write. unfold mbind at 1, io_bind at 1, lift.
  by destruct (write_serialize cfg db).
Qed.

(** X1: [read] leaves the file system alone; it fails with [FileExistsError]
    exactly when both representations exist, with [FileNotFoundError] exactly
    when neither does, and otherwise returns what [orjson.loads] makes of the
    bytes of the one representation, decompressed when it is the compressed
    one. *)
Theorem read_characterization (db_name : string) (σ : fs) :
  let plain := files σ !! json_path cfg db_name in
  let compressed := files σ !! ddb_path cfg db_name in
  let r := fst (read cfg db_name σ) in
  snd (read cfg db_name σ) = σ
  ∧ (r = Raise FileExistsError ↔ is_Some plain ∧ is_Some compressed)
  ∧ (r = Raise FileNotFoundError ↔ plain = None ∧ compressed = None)
  ∧ (∀ b, plain = Some b → compressed = None → r = loaded b)
  ∧ (∀ b, plain = None → compressed = Some b →
       r = match zlib_decompress b with
           | Some d => loaded d
           | None => Raise ZlibError
           end).
Proof.
  intros plain compressed r. subst r.
  rewrite read_unfold, read_file_unfold. simpl. fold plain compressed.
  assert (∀ b e, loaded b = Raise e → e = JSONDecodeError) as Hloaded.
  { intros b e. unfold loaded. destruct (orjson_loads_bytes b); congruence. }
  split; [done|].
  destruct plain as [bj|], compressed as [bd|]; simpl.
  - split_and!; [by eauto | split; [done | by intros [? _]] | done | done].
  - split_and!.
    + split; [intros H; by apply Hloaded in H | by intros [_ [? ?]]].
    + split; [intros H; by apply Hloaded in H | by intros [? _]].
    + by intros b [= <-] _.
    + done.
  - split_and!.
    + split; [|by intros [[? ?] _]].
      destruct (zlib_decompress bd); [intros H; by apply Hloaded in H | done].
    + split; [|by intros [_ ?]].
      destruct (zlib_decompress bd); [intros H; by apply Hloaded in H | done].
    + done.
    + intros b _ [= <-]. by destruct (zlib_decompress bd).
  - split_and!; [split; [done | by intros [[? ?] _]] | done | done | done].
Qed.

Lemma write_dump_frame (db_name : string) (dump : pydata) (σ : fs) (p : string) :
  p ≠ write_path cfg db_name → p ≠ other_path cfg db_name →
  files (snd (write_dump cfg db_name dump σ)) !! p = files σ !! p.
Proof.
  intros Hw Hp. rewrite write_dump_unfold. case_bool_decide; simpl.
  - by rewrite lookup_delete_ne.
  - by rewrite lookup_insert_ne, lookup_delete_ne.
Qed.



(** X4: [write] touches no index file, that of the database it rewrites
    included: the entries of the old document stay in it. *)
Theorem write_keeps_index_files (db_name db' : string) (db : jvalue) (σ : fs) :
  files (snd (write cfg db_name db σ)) !! index_path cfg db' =
    files σ !! index_path cfg db'.
Proof.
  rewrite write_unfold. destruct (write_serialize cfg db) as [dump|e]; [|done].
  apply write_dump_frame.
  - unfold write_path. destruct (use_compression cfg);
      [apply index_ddb_cross | apply index_json_cross].
  - unfold other_path. destruct (use_compression cfg);
      [apply index_json_cross | apply index_ddb_cross].
Qed.

(** X5: [write] to one database leaves the documents of every other database
    as they were. *)
Theorem write_keeps_other_databases (db_name db' : string) (db : jvalue)
    (as_bytes : bool) (σ : fs) :
  db' ≠ db_name →
  fst (read_file cfg db' as_bytes (snd (write cfg db_name db σ))) =
    fst (read_file cfg db' as_bytes σ).
Proof.
  intros Hne. rewrite write_unfold.
  destruct (write_serialize cfg db) as [dump|e]; [|done].
  destruct (document_paths_apart cfg db_name db') as (Hjj & Hjd & Hdj & Hdd);
    [done|].
  rewrite !read_file_unfold. simpl.
  rewrite !write_dump_frame; [done | ..];
    unfold write_path, other_path; by destruct (use_compression cfg).
Qed.

(** ** The index functions *)

(** X8: after a [write_index_file] that returns, [read_index_file] returns the
    mapping that was written: the given entry under the key, every other key
    as in the mapping handed in.  No file but the index file has changed. *)
Theorem index_file_round_trip (index_data m : gmap string index_entry)
    (db_name k : string) (start_index end_index indent_level : Z)
    (indent_with value_hash : string) (σ σ' : fs) :
  write_index_file cfg index_data db_name k start_index end_index
    indent_level indent_with value_hash σ = (Ok m, σ') →
  read_index_file cfg db_name σ' = (Ok m, σ')
  ∧ m !! k = Some (start_index, end_index, indent_level, indent_with, value_hash)
  ∧ (∀ k', k' ≠ k → m !! k' = index_data !! k')
  ∧ (∀ p, p ≠ index_path cfg db_name → files σ' !! p = files σ !! p).
Proof.
  intros Hw.
  pose proof (write_index_file_unfold index_data db_name k
                (start_index, end_index, indent_level, indent_with, value_hash)
                σ) as Hunf.
  simpl in Hunf. rewrite Hunf in Hw. clear Hunf.
  case_bool_decide; [discriminate|]. injection Hw as <- <-. split_and!.
  - rewrite read_index_file_unfold. unfold with_index. simpl.
    by rewrite lookup_insert_eq, index_round_trip.
  - apply lookup_insert_eq.
  - intros k' Hk'. by rewrite lookup_insert_ne.
  - intros p Hp. unfold with_index. simpl. by rewrite lookup_insert_ne.
Qed.

(** X9: two database names share one index file exactly when they agree
    once every slash is replaced by three underscores; so a name that holds
    a slash shares its index file with the name that has the underscores in
    its place. *)
Theorem index_path_aliases (db db' : string) :
  (index_path cfg db = index_path cfg db'
   ↔ str_replace "/" "___" db = str_replace "/" "___" db')
  ∧ index_path cfg (str_replace "/" "___" db) = index_path cfg db.
Proof.
  unfold index_path. split; [split|].
  - intros Heq. do 2 apply String.app_inj in Heq. by apply app_inj_r in Heq.
  - by intros ->.
  - by rewrite slash_replace_idem.
Qed.

(** X10: an index file that [orjson.loads] refuses makes [partial_read] fail
    with its [JSONDecodeError], for every key and though the document reads
    well: there is no fall back to the scan, and nothing is written. *)
Theorem corrupt_index_fails_read (db_name k : string) (as_handle : bool)
    (σ : fs) (data : string) (b : bytes) :
  fst (read_file cfg db_name false σ) = Ok data →
  files σ !! index_path cfg db_name = Some b →
  orjson_loads_index b = None →
  partial_read cfg db_name k as_handle σ = (Raise JSONDecodeError, σ).
Proof.
  intros Hd Hb Hloads.
  rewrite partial_read_unfold, Hd, read_index_file_unfold. simpl.
  by rewrite Hb, Hloads.
Qed.

(** ** [partial_read], besides *)

Lemma decoded_agree (db k data : string) (e : index_entry)
    (index_data : gmap string index_entry) :
  match decoded true db k data e index_data with
  | Ok pf =>
      decoded false db k data e index_data = Ok (value (partial_dict pf))
      ∧ db_name pf = db ∧ key (partial_dict pf) = k
  | Raise e' => decoded false db k data e index_data = Raise e'
  end.
Proof.
  destruct e as [[[[s en] il] iw] h]. unfold decoded.
  by destruct (orjson_loads (slice data s en)).
Qed.

Lemma decoded_error (as_handle : bool) (db k data : string)
    (e : index_entry) (index_data : gmap string index_entry) (e' : exn) :
  decoded as_handle db k data e index_data = Raise e' →
  e' = JSONDecodeError.
Proof.
  destruct e as [[[[s en] il] iw] h]. unfold decoded.
  destruct (orjson_loads (slice data s en)); congruence.
Qed.

(** X11: [as_handle] changes what [partial_read] hands out and nothing else:
    both calls leave the same file system, the handle holds the value the
    plain call returns, for the database and the key asked for, and the two
    fail alike. *)
Theorem handle_and_value_agree (db k : string) (σ : fs) :
  snd (partial_read cfg db k true σ) = snd (partial_read cfg db k false σ)
  ∧ match fst (partial_read cfg db k true σ) with
    | Ok pf =>
        fst (partial_read cfg db k false σ) = Ok (value (partial_dict pf))
        ∧ db_name pf = db ∧ key (partial_dict pf) = k
    | Raise e => fst (partial_read cfg db k false σ) = Raise e
    end.
Proof.
  rewrite !partial_read_unfold.
  destruct (fst (read_file cfg db false σ)) as [data|e]; [|done].
  destruct (fst (read_index_file cfg db σ)) as [index_data|e]; [|done].
  assert (∀ ah,
            snd (partial_read_scan cfg db k ah data index_data σ) =
              snd (partial_read_scan cfg db k false data index_data σ))
    as Hstate.
  { intros ah. rewrite !partial_read_scan_unfold.
    destruct (_ =? -1); [done|].
    destruct (scan_value_start data k); [|done].
    cbv zeta. by case_bool_decide. }
  assert (match fst (partial_read_scan cfg db k true data index_data σ) with
          | Ok pf =>
              fst (partial_read_scan cfg db k false data index_data σ) =
                Ok (value (partial_dict pf))
              ∧ db_name pf = db ∧ key (partial_dict pf) = k
          | Raise e =>
              fst (partial_read_scan cfg db k false data index_data σ) = Raise e
          end) as Hscan.
  { rewrite !partial_read_scan_unfold.
    destruct (_ =? -1); [done|].
    destruct (scan_value_start data k) as [vs|]; [|done].
    cbv zeta. case_bool_decide; [done|]. simpl. apply decoded_agree. }
  destruct (index_data !! k) as [e|]; [|by split].
  destruct (decide (entry_matches data e)); [|by split].
  simpl. split; [done|]. apply decoded_agree.
Qed.

(** X12: [partial_read] writes to the index file of its database and to
    nothing else: every other path holds what it held, and every database,
    the one read included, has the document it had. *)
Theorem partial_read_touches_index_only (db k : string) (as_handle : bool)
    (σ : fs) :
  let σ' := snd (partial_read cfg db k as_handle σ) in
  unwritable σ' = unwritable σ
  ∧ (∀ p, p ≠ index_path cfg db → files σ' !! p = files σ !! p)
  ∧ (∀ db' as_bytes,
       fst (read_file cfg db' as_bytes σ') = fst (read_file cfg db' as_bytes σ)).
Proof.
  intros σ'. subst σ'.
  assert (∀ m,
            let σ' := with_index cfg db m σ in
            unwritable σ' = unwritable σ
            ∧ (∀ p, p ≠ index_path cfg db → files σ' !! p = files σ !! p)
            ∧ (∀ db' as_bytes,
                 fst (read_file cfg db' as_bytes σ') =
                   fst (read_file cfg db' as_bytes σ))) as Hindexed.
  { intros m. cbv zeta. unfold with_index. split_and!; [done | |].
    - intros p Hp. simpl. by rewrite lookup_insert_ne.
    - intros db' as_bytes. rewrite !read_file_unfold. simpl.
      rewrite !lookup_insert_ne;
        [done | apply index_ddb_cross | apply index_json_cross]. }
  destruct (partial_read_cases db k as_handle σ)
    as [[e Hr] | [(data & idx & e & _ & _ & _ & _ & Hr)
                | (data & idx & vs & _ & _ & _ & _ & _ & _ & Hr)]];
    cbv zeta in Hr; rewrite Hr; simpl; [done | done | apply Hindexed].
Qed.

(** X13: the scan writes its index entry before the value is decoded.  When
    the slice it located is not JSON, [partial_read] raises
    [JSONDecodeError] and the index file holds the entry all the same. *)
Theorem scan_writes_before_decoding (db k : string) (as_handle : bool)
    (σ : fs) (data : string) (index_data : gmap string index_entry)
    (value_start_index : Z) :
  fst (read_file cfg db false σ) = Ok data →
  fst (read_index_file cfg db σ) = Ok index_data →
  (∀ e, index_data !! k = Some e → ¬ entry_matches data e) →
  find_outermost_json_key_index data (json_key_of k) ≠ -1 →
  scan_value_start data k = Some value_start_index →
  index_path cfg db ∉ unwritable σ →
  orjson_loads
    (slice data value_start_index
       (seek_index_through_value data value_start_index)) = None →
  let e := scan_entry data k value_start_index in
  partial_read cfg db k as_handle σ =
    (Raise JSONDecodeError, with_index cfg db (<[k := e]> index_data) σ)
  ∧ fst (read_index_file cfg db (snd (partial_read cfg db k as_handle σ))) =
      Ok (<[k := e]> index_data).
Proof.
  intros Hd Hi Hno Hfound Hvs Hw Hloads e.
  assert (partial_read cfg db k as_handle σ =
            (Raise JSONDecodeError, with_index cfg db (<[k := e]> index_data) σ))
    as Hr.
  { rewrite (partial_read_miss db k as_handle σ data index_data Hd Hi Hno).
    rewrite partial_read_scan_unfold.
    destruct (Z.eqb_spec (find_outermost_json_key_index data (json_key_of k)) (-1));
      [done|].
    rewrite Hvs. cbv zeta. rewrite bool_decide_eq_false_2 by done.
    by rewrite decoded_scan_entry, Hloads. }
  split; [exact Hr|]. rewrite Hr. simpl.
  by apply read_index_file_with_index.
Qed.

(** X14: a key token that ends the text has no character after it to look
    at: the scan raises [IndexError] and writes nothing. *)
Theorem key_at_end_raises_index_error (db k : string) (as_handle : bool)
    (σ : fs) (data : string) (index_data : gmap string index_entry) :
  fst (read_file cfg db false σ) = Ok data →
  fst (read_index_file cfg db σ) = Ok index_data →
  (∀ e, index_data !! k = Some e → ¬ entry_matches data e) →
  find_outermost_json_key_index data (json_key_of k) ≠ -1 →
  len data <=
    find_outermost_json_key_index data (json_key_of k) + len (json_key_of k) →
  partial_read cfg db k as_handle σ = (Raise IndexError, σ).
Proof.
  intros Hd Hi Hno Hfound Hend.
  rewrite (partial_read_miss db k as_handle σ data index_data Hd Hi Hno).
  rewrite partial_read_scan_unfold.
  destruct (Z.eqb_spec (find_outermost_json_key_index data (json_key_of k)) (-1));
    [done|].
  assert (scan_value_start data k = None) as ->; [|done].
  unfold scan_value_start, str_index. pose proof (len_nonneg data).
  set (i := _ + len (json_key_of k)) in *.
  destruct (Z.ltb_spec i 0); [lia|].
  destruct (Z.leb_spec 0 i), (Z.ltb_spec i (len data)); simpl; done || lia.
Qed.

(** Once the document has been read, [partial_read] fails in one of four
    ways. *)
Lemma partial_read_late_error (db k : string) (as_handle : bool) (σ : fs)
    (data : string) (e : exn) :
  fst (read_file cfg db false σ) = Ok data →
  fst (partial_read cfg db k as_handle σ) = Raise e →
  e = JSONDecodeError ∨ e = KeyError ∨ e = IndexError ∨ e = PermissionError.
Proof.
  intros Hd. rewrite partial_read_unfold, Hd, read_index_file_unfold. simpl.
  assert (fst (partial_read_scan cfg db k as_handle data
                 match files σ !! index_path cfg db with
                 | Some b => default ∅ (orjson_loads_index b)
                 | None => ∅
                 end σ) = Raise e →
          e = JSONDecodeError ∨ e = KeyError ∨ e = IndexError
          ∨ e = PermissionError) as Hscan.
  { rewrite partial_read_scan_unfold.
    destruct (_ =? -1); [simpl; intros [= <-]; auto|].
    destruct (scan_value_start data k); [|simpl; intros [= <-]; auto].
    cbv zeta. case_bool_decide; simpl; [intros [= <-]; auto|].
    intros He. apply decoded_error in He. auto. }
  destruct (files σ !! index_path cfg db) as [b|].
  - destruct (orjson_loads_index b) as [m|]; simpl in *;
      [|intros [= <-]; auto].
    destruct (m !! k) as [e0|]; [|done].
    destruct (decide (entry_matches data e0)); [|done].
    simpl. intros He. apply decoded_error in He. auto.
  - by rewrite lookup_empty.
Qed.

(** X15: [partial_read] fails with [FileExistsError] exactly when both
    representations of the database exist and with [FileNotFoundError]
    exactly when neither does; in both cases it has written nothing. *)
Theorem partial_read_storage_errors (db k : string) (as_handle : bool) (σ : fs) :
  let plain := files σ !! json_path cfg db in
  let compressed := files σ !! ddb_path cfg db in
  let r := partial_read cfg db k as_handle σ in
  (fst r = Raise FileExistsError ↔ is_Some plain ∧ is_Some compressed)
  ∧ (fst r = Raise FileNotFoundError ↔ plain = None ∧ compressed = None)
  ∧ (fst r = Raise FileExistsError ∨ fst r = Raise FileNotFoundError →
     snd r = σ).
Proof.
  intros plain compressed r. subst r.
  pose proof (partial_read_late_error db k as_handle σ) as Hlate.
  pose proof (partial_read_unfold db k as_handle σ) as Hunf.
  rewrite read_file_unfold in Hlate, Hunf. simpl in Hlate, Hunf.
  fold plain compressed in Hlate, Hunf.
  assert (∀ data e,
            read_document false plain compressed = Ok data →
            fst (partial_read cfg db k as_handle σ) = Raise e →
            e ≠ FileExistsError ∧ e ≠ FileNotFoundError) as Hnot.
  { intros data e Hd He.
    destruct (Hlate data e Hd He) as [-> | [-> | [-> | ->]]]; done. }
  assert (∀ e,
            read_document false plain compressed = Raise e →
            partial_read cfg db k as_handle σ = (Raise e, σ)) as Hearly.
  { intros e He. by rewrite Hunf, He. }
  clear Hlate Hunf.
  destruct (read_document false plain compressed) as [data|e] eqn:Hdoc.
  - specialize (Hnot data). split_and!.
    + split; [intros He; by destruct (Hnot _ eq_refl He)|].
      intros [[bj Hj] [bd Hd]]. rewrite Hj, Hd in Hdoc. discriminate Hdoc.
    + split; [intros He; by destruct (Hnot _ eq_refl He)|].
      intros [Hj Hd]. rewrite Hj, Hd in Hdoc. discriminate Hdoc.
    + intros [He|He]; by destruct (Hnot _ eq_refl He).
  - rewrite (Hearly e eq_refl). simpl. clear Hnot Hearly.
    unfold read_document in Hdoc.
    destruct plain as [bj|], compressed as [bd|].
    + simplify_eq. split_and!; [by eauto | | done].
      split; [done | by intros [? _]].
    + apply as_file_error in Hdoc as ->. split_and!; [| | done].
      * split; [done | by intros [_ [? ?]]].
      * split; [done | by intros [? _]].
    + assert (e = UnicodeDecodeError ∨ e = ZlibError) as [-> | ->].
      { destruct (zlib_decompress bd) as [d|].
        - left. by apply as_data_error in Hdoc.
        - right. by simplify_eq. }
      * split_and!; [| | done].
        -- split; [done | by intros [[? ?] _]].
        -- split; [done | by intros [_ ?]].
      * split_and!; [| | done].
        -- split; [done | by intros [[? ?] _]].
        -- split; [done | by intros [_ ?]].
    + simplify_eq. split_and!; [| by eauto | done].
      split; [done | by intros [[? ?] _]].
Qed.

(** ** [partial_write], besides *)

(** X16: a [partial_read] that follows a returning [partial_write] whose
    document reads back as it was written, for the key that was written,
    returns what [orjson.loads] makes of the indented dump, and writes
    nothing.  As a handle it has the prefix, the suffix and the indentation of
    the handle that was written, and the index mapping that was written with
    it. *)
Theorem partial_read_after_partial_write (pf : PartialFileHandle)
    (as_handle : bool) (σ σ' : fs) (partial_dump : string) :
  partial_write cfg pf σ = (Ok (), σ') →
  partial_serialize cfg (value (partial_dict pf)) = Ok partial_dump →
  (let data :=
     prefix (partial_dict pf) +:+ new_dump pf partial_dump
       +:+ suffix (partial_dict pf) in
   reread cfg data = data) →
  partial_read cfg (db_name pf) (key (partial_dict pf)) as_handle σ' =
    (match orjson_loads (new_dump pf partial_dump) with
     | Some v =>
         Ok (finish as_handle v
               (mkPartialFileHandle (db_name pf)
                  (mkPartialDict (prefix (partial_dict pf))
                     (key (partial_dict pf)) v (suffix (partial_dict pf)))
                  (indent_level pf) (indent_with pf)
                  (<[key (partial_dict pf) := written_entry pf partial_dump]>
                     (index_data pf))))
     | None => Raise JSONDecodeError
     end, σ').
Proof.
  intros Hw Hser Hstable.
  destruct (partial_write_state pf σ σ' Hw) as (d & Hser' & Hd & Hi & Hm).
  rewrite Hser in Hser'. injection Hser' as <-.
  cbv zeta in Hstable. rewrite Hstable in Hd.
  rewrite (partial_read_hit _ _ as_handle _ _ _ _ Hd Hi (lookup_insert_eq _ _ _) Hm).
  f_equal. unfold decoded, written_entry, handle_of.
  rewrite slice_middle, slice_to_head.
  rewrite <- len_app, <- app_assoc_s, slice_from_tail.
  done.
Qed.

(** X17: [partial_write] leaves a dump of one line as it is, whatever the
    handle's indentation, and so it does any dump under a handle with no
    indentation. *)
Theorem reindent_keeps (indent_level : Z) (indent_with partial_dump : string) :
  (∀ i, String.get i partial_dump ≠ Some newline)
  ∨ indent_level <= 0 ∨ indent_with = EmptyString →
  reindent indent_level indent_with partial_dump = partial_dump.
Proof.
  unfold reindent. intros [Hline | [Hlevel | ->]].
  - destruct (_ && _); [|done]. by apply str_replace_absent.
  - destruct (Z.ltb_spec 0 indent_level); [lia | done].
  - by rewrite andb_false_r.
Qed.

End Laws.

End EngineFacts.

(** ** Reading under another configuration *)

Section Reconfigured.
Context {L : Library} {U : Scanner}.
Variables cfg cfg' : config.
Hypothesis same_directory : storage_directory cfg' = storage_directory cfg.
Hypothesis zlib_round_trip :
  ∀ b level, zlib_decompress (zlib_compress b level) = Some b.

Lemma paths_reconfigured (db_name : string) :
  json_path cfg' db_name = json_path cfg db_name
  ∧ ddb_path cfg' db_name = ddb_path cfg db_name.
Proof. unfold json_path, ddb_path. by rewrite same_directory. Qed.

Lemma read_file_written (db_name : string) (dump : pydata) (σ σ' : fs) :
  write_dump cfg db_name dump σ = (Ok (), σ') →
  read_file cfg' db_name true σ' = (Ok (dump_bytes dump), σ').
Proof.
  intros Hw. apply write_dump_ok in Hw. subst σ'.
  rewrite read_file_unfold. f_equal.
  destruct (paths_reconfigured db_name) as [-> ->]. simpl.
  pose proof (json_ddb_distinct cfg db_name) as Hne.
  unfold write_path, other_path, stored_bytes.
  destruct (use_compression cfg).
  - rewrite lookup_insert_ne, lookup_delete_eq, lookup_insert_eq by done.
    simpl. by rewrite zlib_round_trip.
  - by rewrite lookup_insert_eq, lookup_insert_ne, lookup_delete_eq by done.
Qed.

(** X6: what [write_dump] stored under one configuration reads back under
    any configuration of the same storage directory, compression on or off
    at the time of either call: [read_file] returns the bytes of the dump,
    and as text their decoding, with the line ends translated if the dump
    was stored in the plain file. *)
Theorem read_file_after_write_dump (db_name : string) (dump : pydata)
    (σ σ' : fs) :
  write_dump cfg db_name dump σ = (Ok (), σ') →
  read_file cfg' db_name true σ' = (Ok (dump_bytes dump), σ')
  ∧ fst (read_file cfg' db_name false σ') =
      if use_compression cfg then as_data false (dump_bytes dump)
      else as_file false (dump_bytes dump).
Proof.
  intros Hw. split; [exact (read_file_written _ _ _ _ Hw)|].
  apply write_dump_ok in Hw. subst σ'. rewrite read_file_unfold.
  destruct (paths_reconfigured db_name) as [-> ->]. simpl.
  pose proof (json_ddb_distinct cfg db_name) as Hne.
  unfold write_path, other_path, stored_bytes.
  destruct (use_compression cfg).
  - rewrite lookup_insert_ne, lookup_delete_eq, lookup_insert_eq by done.
    simpl. by rewrite zlib_round_trip.
  - by rewrite lookup_insert_eq, lookup_insert_ne, lookup_delete_eq by done.
Qed.

(** X7: after a [write] that returns, [read], under any configuration of the
    same storage directory, returns what [orjson.loads] makes of the bytes
    [write] serialized the value to. *)
Theorem read_after_write (db_name : string) (db : jvalue) (σ σ' : fs) :
  write cfg db_name db σ = (Ok (), σ') →
  ∃ dump,
    write_serialize cfg db = Ok dump
    ∧ read cfg' db_name σ' = (loaded (dump_bytes dump), σ').
Proof.
  rewrite write_unfold.
  destruct (write_serialize cfg db) as [dump|e]; [|discriminate].
  intros Hw. exists dump. split; [done|].
  by rewrite read_unfold, (read_file_written _ _ _ _ Hw).
Qed.

End Reconfigured.

(** ** Reading through the index *)

Section TwoScanners.
Context {L : Library}.
Variables U1 U2 : Scanner.
Variable cfg : config.

(** X18: when the index holds an entry for the key whose hash is that of the
    text at its offsets, [partial_read] does not consult the scanner: under
    any two scanners it returns the same, and it writes nothing. *)
Theorem index_hit_skips_scan (db k : string) (as_handle : bool) (σ : fs)
    (data : string) (index_data : gmap string index_entry) (e : index_entry) :
  fst (read_file cfg db false σ) = Ok data →
  fst (read_index_file cfg db σ) = Ok index_data →
  index_data !! k = Some e →
  entry_matches data e →
  @partial_read L U1 cfg db k as_handle σ =
    @partial_read L U2 cfg db k as_handle σ
  ∧ snd (@partial_read L U1 cfg db k as_handle σ) = σ.
Proof.
  intros Hd Hi He Hm.
  rewrite (@partial_read_hit L U1 cfg db k as_handle σ data index_data e Hd Hi He Hm).
  by rewrite (@partial_read_hit L U2 cfg db k as_handle σ data index_data e Hd Hi He Hm).
Qed.

End TwoScanners.

(** ** The reference libraries keep the laws *)

Lemma utf8_decode_char (c : ascii) (rest : bytes) :
  Utf8.decode (Utf8.encode_char c ++ rest) = String c <$> Utf8.decode rest.
Proof. destruct c as [[] [] [] [] [] [] [] []]; reflexivity. Qed.

Lemma utf8_decode_encode (s : string) : Utf8.decode (Utf8.encode s) = Some s.
Proof.
  induction s as [|c s IH]; [done|].
  simpl. by rewrite utf8_decode_char, IH.
Qed.

Lemma utf8_decode_one (x : Byte.byte) (rest : bytes) (s : string) :
  String (ascii_of_byte x) <$> Utf8.decode rest = Some s →
  (∀ s', Utf8.decode rest = Some s' → Utf8.encode s' = rest) →
  Utf8.encode_char (ascii_of_byte x) = [x] →
  Utf8.encode s = x :: rest.
Proof.
  intros Hs IH Hx. destruct (Utf8.decode rest) as [s'|]; [|discriminate Hs].
  injection Hs as <-. simpl. rewrite Hx. simpl. f_equal. by apply IH.
Qed.

Lemma utf8_decode_two (x y : Byte.byte) (c : ascii) (rest : bytes) (s : string) :
  String c <$> Utf8.decode rest = Some s →
  (∀ s', Utf8.decode rest = Some s' → Utf8.encode s' = rest) →
  Utf8.encode_char c = [x; y] →
  Utf8.encode s = x :: y :: rest.
Proof.
  intros Hs IH Hx. destruct (Utf8.decode rest) as [s'|]; [|discriminate Hs].
  injection Hs as <-. simpl. rewrite Hx. simpl. do 2 f_equal. by apply IH.
Qed.

(** The decoder is strict: what it accepts is the encoding of its result. *)
Lemma utf8_encode_decode (b : bytes) (s : string) :
  Utf8.decode b = Some s → Utf8.encode s = b.
Proof.
  revert s. induction b as [b IH] using (induction_ltof1 _ (@length Byte.byte)).
  unfold ltof in IH. intros s Hs.
  destruct b as [|x rest]; [by injection Hs as <-|].
  assert (∀ s', Utf8.decode rest = Some s' → Utf8.encode s' = rest) as IH1
    by (intros s'; apply IH; simpl; lia).
  destruct x; try discriminate Hs;
    try (by apply (utf8_decode_one _ _ _ Hs IH1)).
  all: destruct rest as [|y rest']; [discriminate Hs|].
  all: assert (∀ s', Utf8.decode rest' = Some s' → Utf8.encode s' = rest') as IH2
         by (intros s'; apply IH; simpl; lia).
  all: destruct y; try discriminate Hs;
         by apply (utf8_decode_two _ _ _ _ _ Hs IH2).
Qed.

Lemma stored_round_trip (b : bytes) (level : Z) :
  Stored.decompress (Stored.compress b level) = Some b.
Proof. reflexivity. Qed.

Lemma number_digits (p : positive) :
  IndexCodec.number (IndexCodec.digits p) = Some p.
Proof. induction p as [p IH|p IH|]; simpl; by rewrite ?IH. Qed.

Lemma index_codec_round_trip (m : gmap string index_entry) :
  IndexCodec.loads (IndexCodec.dumps m) = Some m.
Proof.
  unfold IndexCodec.loads, IndexCodec.dumps. rewrite number_digits. simpl.
  apply decode_encode.
Qed.

Lemma ref_orjson_utf8 (v : Json.t) (option : Z) (b : bytes) :
  @orjson_dumps ref_library v option = Some b → is_Some (Utf8.decode b).
Proof. intros Hb. injection Hb as <-. rewrite utf8_decode_encode. eauto. Qed.

(** The reference digest on the standard test messages: the empty one, [abc],
    and one that takes two blocks. *)
Example sha256_empty :
  Sha256.hexdigest [] =
    "e3b0c44298fc1c149afbf4c8996fb92427ae41e4649b934ca495991b7852b855".
Proof. vm_compute. reflexivity. Qed.

Example sha256_abc :
  Sha256.hexdigest [x61; x62; x63] =
    "ba7816bf8f01cfea414140de5dae2223b00361a396177a9cb410ff61f20015ad".
Proof. vm_compute. reflexivity. Qed.

Example sha256_two_blocks :
  Sha256.hexdigest (replicate 100 x61) =
    "2816597888e4a0d3a36b82b83316ab32680eb8f00f8cd3b904d681246d285a0e".
Proof. vm_compute. reflexivity. Qed.

(** The first and the last of the round constants, and the initial state. *)
Example sha256_constants :
  head Sha256.K = Some 0x428a2f98 ∧ last Sha256.K = Some 0xc67178f2
  ∧ length Sha256.K = 64%nat
  ∧ Sha256.H0 = (0x6a09e667, 0xbb67ae85, 0x3c6ef372, 0xa54ff53a,
                 0x510e527f, 0x9b05688c, 0x1f83d9ab, 0x5be0cd19).
Proof. vm_compute. done. Qed.

(** ** The engine on the example documents *)

(** The runs below are closed terms: both sides of an equation are evaluated
    by the virtual machine when the proof is checked. *)
Ltac run :=
  lazymatch goal with
  | |- _ = ?r => vm_cast_no_check (@eq_refl _ r)
  end.

(** The same for a fact [H] already at hand, whose statement evaluates to the
    goal. *)
Ltac run_from H := vm_cast_no_check H.

(** A closed disequality or negated equation, refuted by evaluation. *)
Ltac run_neq :=
  let H := fresh in intros H; vm_compute in H; discriminate H.

Section Runs.
Local Existing Instance ref_library.
Local Existing Instance ref_scanner.

(** The spec's scenario: the read of [b] as a handle, then the write of the
    new value. *)
Lemma read_abc_b :
  partial_read cfg_plain "db" "b" true fs_abc = (Ok handle_abc_b, fs_abc_indexed).
Proof. run. Qed.

Lemma write_abc_x9 :
  partial_write cfg_plain (with_value handle_abc_b value_x9) fs_abc_indexed =
    (Ok (), fs_x9).
Proof. run. Qed.

(** The spec's scenario, [b] replaced and [a] and [c] as they were. *)
Lemma partial_write_round_trip_witness :
  partial_read cfg_plain "db" "b" true fs_abc = (Ok handle_abc_b, fs_abc_indexed)
  ∧ partial_write cfg_plain (with_value handle_abc_b value_x9) fs_abc_indexed =
      (Ok (), fs_x9)
  ∧ fst (read_file cfg_plain "db" false fs_x9) = Ok doc_x9.
Proof.
  split; [exact read_abc_b | split; [exact write_abc_x9 |]].
  destruct (@partial_write_round_trip ref_library ref_scanner cfg_plain
              utf8_decode_encode stored_round_trip
              "db" "b" value_x9 fs_abc fs_abc_indexed fs_x9 doc_abc 14
              handle_abc_b) as (d & Hser & _ & Hdoc).
  - run.
  - run.
  - vm_compute. split; discriminate.
  - vm_compute. discriminate.
  - intros idx s e il iw h Hidx Hb _.
    assert (fst (read_index_file cfg_plain "db" fs_abc) = Ok ∅) as Hi by run.
    rewrite Hi in Hidx. injection Hidx as <-.
    rewrite lookup_empty in Hb. discriminate Hb.
  - exact read_abc_b.
  - exact write_abc_x9.
  - vm_compute in Hser. injection Hser as <-. run_from Hdoc.
Defined.

(** C1 at its failing input.  The engine reads [b] in [doc_ba] and indexes
    it at 6..7; a full [write] then stores [doc_ab], where 6..7 is the value
    of [a], with the same text; the index entry of [b] still matches.  The
    read of [b] as a handle goes through the index, and the write of 2 for
    [b] replaces the value of [a]: the scan locates the value of [b] at
    14..15, and the document is not [doc_ab] with that span replaced. *)
Lemma stale_hit_breaks_round_trip :
  let σ1 := snd (partial_read cfg_plain "db" "b" false fs_ba) in
  let σ2 := snd (write cfg_plain "db" value_ab σ1) in
  let r3 := partial_read cfg_plain "db" "b" true σ2 in
  let r4 := partial_write cfg_plain
              (with_value
                 (handle_of "db" "b" doc_ab
                    (6, 7, 0, EmptyString, Sha256.hexdigest (Utf8.encode "1"))
                    (Json.Int 1)
                    {[ "b" := (6, 7, 0, EmptyString,
                               Sha256.hexdigest (Utf8.encode "1")) ]})
                 (Json.Int 2))
              (snd r3) in
  fst (read_file cfg_plain "db" false σ2) = Ok doc_ab
  ∧ scan_value_start doc_ab "b" = Some 14
  ∧ seek_index_through_value doc_ab 14 = 15
  ∧ fst r3 = Ok (handle_of "db" "b" doc_ab
                   (6, 7, 0, EmptyString, Sha256.hexdigest (Utf8.encode "1"))
                   (Json.Int 1)
                   {[ "b" := (6, 7, 0, EmptyString,
                              Sha256.hexdigest (Utf8.encode "1")) ]})
  ∧ fst r4 = Ok ()
  ∧ fst (read_file cfg_plain "db" false (snd r4)) =
      Ok (json_text "{'a': 2, 'b': 1}")
  ∧ slice_to doc_ab 14 +:+ "2" +:+ slice_from doc_ab 15 =
      json_text "{'a': 1, 'b': 2}"
  ∧ json_text "{'a': 2, 'b': 1}" ≠ json_text "{'a': 1, 'b': 2}".
Proof. intros σ1 σ2 r3 r4. split_and!; [run .. | run_neq]. Qed.

(** Witness of C2: the entry of [b] points two characters short in the
    shifted document; the read rescans, returns the value and refreshes the
    entry. *)
Lemma stale_entry_falls_back_witness :
  fst (read_index_file cfg_plain "db" fs_stale) = Ok {[ "b" := entry_abc_b ]}
  ∧ ¬ entry_matches doc_shifted entry_abc_b
  ∧ partial_read cfg_plain "db" "b" false fs_stale =
      (Ok value_x123,
       with_index cfg_plain "db" {[ "b" := entry_shifted_b ]} fs_stale)
  ∧ entry_matches doc_shifted entry_shifted_b.
Proof.
  assert (¬ entry_matches doc_shifted entry_abc_b) as Hstale by run_neq.
  destruct (@stale_entry_falls_back ref_library ref_scanner cfg_plain
              index_codec_round_trip "db" "b" false fs_stale doc_shifted
              {[ "b" := entry_abc_b ]} entry_abc_b) as [_ Hfound];
    [run | run | run | exact Hstale |].
  destruct (Hfound 16 value_x123) as (Hread & Hfresh & _);
    [run_neq | run | run_neq | run |].
  split_and!; [run | exact Hstale | run_from Hread | run_from Hfresh].
Defined.

(** Witness of C3: a [partial_write] under the compressing configuration,
    over a plain file: the compressed file is there, the plain one is gone. *)
Lemma write_leaves_one_representation_witness :
  let σ' := snd (partial_write cfg_packed (with_value handle_abc_b value_x9)
                   fs_abc_indexed) in
  partial_write cfg_packed (with_value handle_abc_b value_x9) fs_abc_indexed =
    (Ok (), σ')
  ∧ is_Some (files fs_abc_indexed !! "store/db.json")
  ∧ is_Some (files σ' !! "store/db.ddb")
  ∧ files σ' !! "store/db.json" = None
  ∧ one_representation cfg_packed "db" σ'.
Proof.
  intros σ'.
  assert (partial_write cfg_packed (with_value handle_abc_b value_x9)
            fs_abc_indexed = (Ok (), σ')) as Hw by run.
  split; [exact Hw | split; [vm_compute; eauto |]].
  apply (@write_leaves_one_representation ref_library cfg_packed "db"
           fs_abc_indexed σ').
  right. right. exists (with_value handle_abc_b value_x9).
  split; [reflexivity | exact Hw].
Defined.

(** Witness of C4: the spec's scenario of the missing key. *)
Lemma key_not_found_leaves_index_witness :
  find_outermost_json_key_index doc_abc (json_key_of "missing_key") = -1
  ∧ partial_read cfg_plain "db" "missing_key" false fs_abc_indexed =
      (Raise KeyError, fs_abc_indexed)
  ∧ fst (read_index_file cfg_plain "db"
           (snd (partial_read cfg_plain "db" "missing_key" false fs_abc_indexed)))
      = Ok {[ "b" := entry_abc_b ]}.
Proof.
  split; [run |].
  apply (@key_not_found_leaves_index ref_library ref_scanner cfg_plain
           "db" "missing_key" false fs_abc_indexed doc_abc {[ "b" := entry_abc_b ]}).
  - run.
  - run.
  - intros e He. rewrite lookup_singleton_ne in He by done. discriminate He.
  - run.
Defined.

(** Witness of C6: the first read of [b] scans and indexes, the second
    returns the same value and changes nothing. *)
Lemma partial_read_twice_witness :
  let r := partial_read cfg_plain "db" "b" false fs_abc in
  r = (Ok value_x123, fs_abc_indexed)
  ∧ partial_read cfg_plain "db" "b" false (snd r) = r.
Proof.
  intros r. split; [run |].
  exact (proj1 (@partial_read_twice ref_library ref_scanner cfg_plain
                  index_codec_round_trip "db" "b" false fs_abc)).
Defined.

(** Witness of C7: the entry of [b] after the write of the spec's scenario. *)
Lemma partial_write_index_entry_witness :
  partial_write cfg_plain (with_value handle_abc_b value_x9) fs_abc_indexed =
    (Ok (), fs_x9)
  ∧ fst (read_index_file cfg_plain "db" fs_x9) = Ok {[ "b" := entry_x9 ]}.
Proof.
  split; [exact write_abc_x9 |].
  destruct (@partial_write_index_entry ref_library cfg_plain
              index_codec_round_trip (with_value handle_abc_b value_x9)
              fs_abc_indexed fs_x9 write_abc_x9) as (d & Hser & Hidx).
  vm_compute in Hser. injection Hser as <-. run_from Hidx.
Defined.

(** Witness of C8: [orjson], indented and sorted, on a nested value. *)
Lemma serializers_agree_witness :
  write_serialize cfg_packed value_nested = Ok (PBytes (Utf8.encode doc_nested))
  ∧ partial_serialize cfg_packed value_nested = Ok doc_nested.
Proof.
  assert (write_serialize cfg_packed value_nested =
            Ok (PBytes (Utf8.encode doc_nested))) as Hw
    by run.
  split; [exact Hw |].
  pose proof (@serializers_agree ref_library cfg_packed utf8_encode_decode
                ref_orjson_utf8 value_nested) as Hagree.
  rewrite Hw in Hagree. destruct Hagree as (d & Hd & Henc).
  rewrite Hd. f_equal.
  apply (f_equal Utf8.decode) in Henc. simpl in Henc.
  change (@str_encode ref_library d) with (Utf8.encode d) in Henc.
  rewrite !utf8_decode_encode in Henc. by injection Henc.
Defined.


(** Witness of C10: after the write of the spec's scenario the entry of [b]
    matches the document, and the next read decodes through it. *)
Lemma persisted_entry_matches_witness :
  partial_write cfg_plain (with_value handle_abc_b value_x9) fs_abc_indexed =
    (Ok (), fs_x9)
  ∧ reread cfg_plain doc_x9 = doc_x9
  ∧ entry_matches doc_x9 entry_x9
  ∧ partial_read cfg_plain "db" "b" false fs_x9 = (Ok value_x9, fs_x9).
Proof.
  split; [exact write_abc_x9 |]. split; [run |].
  destruct (@persisted_entry_matches ref_library ref_scanner cfg_plain
              index_codec_round_trip utf8_decode_encode stored_round_trip
              "db" "b" fs_abc_indexed fs_x9)
    as (data & idx & s & e & il & iw & Hd & Hi & He & Hhit).
  { right. exists (with_value handle_abc_b value_x9), (json_text "{'x': [9]}").
    split_and!;
      [reflexivity | reflexivity | exact write_abc_x9 | run | cbv zeta; run]. }
  assert (fst (read_file cfg_plain "db" false fs_x9) = Ok doc_x9) as Hd' by run.
  rewrite Hd' in Hd. injection Hd as <-.
  assert (fst (read_index_file cfg_plain "db" fs_x9) = Ok {[ "b" := entry_x9 ]})
    as Hi' by run.
  rewrite Hi' in Hi. injection Hi as <-.
  rewrite lookup_singleton_eq in He.
  remember (sha256_hexdigest _) as h eqn:Hh in He.
  injection He as <- <- <- <- <-.
  split; [symmetry; run_from Hh | run_from (Hhit false)].
Defined.

(** The counterexample of C10: the document file cannot be opened for
    writing.  [partial_write] has persisted the entry of the dump it did not
    write: the hash of that entry is not that of the document at its offsets,
    and the read of [b] that follows scans and writes the index again. *)
Lemma failed_write_persists_unmatched_entry :
  let r := partial_write cfg_plain (with_value handle_abc_b value_x9) fs_locked in
  fst r = Raise PermissionError
  ∧ fst (read_file cfg_plain "db" false (snd r)) = Ok doc_abc
  ∧ fst (read_index_file cfg_plain "db" (snd r)) = Ok {[ "b" := entry_x9 ]}
  ∧ ¬ entry_matches doc_abc entry_x9
  ∧ partial_read cfg_plain "db" "b" false (snd r) =
      (Ok value_x123, with_index cfg_plain "db" {[ "b" := entry_abc_b ]} (snd r)).
Proof. intros r. split_and!; [run | run | run | run_neq | run]. Qed.

End Runs.

(** ** The rest of the module on the example documents *)


Section MoreRuns.
Local Existing Instance ref_library.
Local Existing Instance ref_scanner.


(** A write to [db] beside [other]. *)
Lemma write_keeps_other_databases_witness :
  "other" ≠ "db"
  ∧ fst (read_file cfg_plain "other" false fs_two) = Ok doc_ab
  ∧ fst (read_file cfg_plain "other" false
           (snd (write cfg_plain "db" value_x9 fs_two))) = Ok doc_ab.
Proof.
  assert ("other" ≠ "db") as Hne by discriminate.
  assert (fst (read_file cfg_plain "other" false fs_two) = Ok doc_ab) as Hd
    by run.
  split_and!; [exact Hne | exact Hd |].
  rewrite <- Hd.
  apply (@write_keeps_other_databases ref_library cfg_plain "db" "other"
           value_x9 false fs_two Hne).
Defined.

(** Written compressed, read with compression off. *)
Lemma read_file_after_write_dump_witness :
  let σ' := snd (write_dump cfg_packed "db" (PStr doc_x9) fs_abc) in
  write_dump cfg_packed "db" (PStr doc_x9) fs_abc = (Ok (), σ')
  ∧ read_file cfg_plain "db" true σ' = (Ok (dump_bytes (PStr doc_x9)), σ')
  ∧ fst (read_file cfg_plain "db" false σ') = Ok doc_x9.
Proof.
  intros σ'.
  assert (write_dump cfg_packed "db" (PStr doc_x9) fs_abc = (Ok (), σ')) as Hw
    by run.
  destruct (@read_file_after_write_dump ref_library cfg_packed cfg_plain
              eq_refl stored_round_trip "db" (PStr doc_x9) fs_abc σ' Hw)
    as [Hb Hs].
  split_and!; [exact Hw | exact Hb | run_from Hs].
Defined.

(** Written plain with the line ends of another system: the bytes come back
    as they are, the text with its line ends translated. *)
Lemma text_read_translates_line_ends :
  let σ' := snd (write_dump cfg_plain "db" (PStr doc_crlf) fs_abc) in
  read_file cfg_plain "db" true σ' = (Ok (Utf8.encode doc_crlf), σ')
  ∧ fst (read_file cfg_plain "db" false σ') = Ok doc_lf
  ∧ len doc_crlf = 17 ∧ len doc_lf = 16.
Proof. intros σ'. split_and!; run. Qed.

Lemma read_after_write_witness :
  let σ' := snd (write cfg_packed "db" value_x9 fs_abc) in
  write cfg_packed "db" value_x9 fs_abc = (Ok (), σ')
  ∧ read cfg_plain "db" σ' = (Ok value_x9, σ').
Proof.
  intros σ'.
  assert (write cfg_packed "db" value_x9 fs_abc = (Ok (), σ')) as Hw by run.
  destruct (@read_after_write ref_library cfg_packed cfg_plain
              eq_refl stored_round_trip "db" value_x9 fs_abc σ' Hw)
    as (dump & Hser & Hr).
  split; [exact Hw|].
  vm_compute in Hser. injection Hser as <-. run_from Hr.
Defined.

(** An entry for [a] written beside that of [b]. *)
Lemma index_file_round_trip_witness :
  let m := <[ "a" := entry_abc_a ]> {[ "b" := entry_abc_b ]} in
  let σ' := with_index cfg_plain "db" m fs_abc_indexed in
  write_index_file cfg_plain {[ "b" := entry_abc_b ]} "db" "a" 6 7 0
    EmptyString (span_hash doc_abc 6 7) fs_abc_indexed = (Ok m, σ')
  ∧ read_index_file cfg_plain "db" σ' = (Ok m, σ')
  ∧ m !! "b" = Some entry_abc_b.
Proof.
  intros m σ'.
  assert (write_index_file cfg_plain {[ "b" := entry_abc_b ]} "db" "a" 6 7 0
            EmptyString (span_hash doc_abc 6 7) fs_abc_indexed
          = (Ok m, σ')) as Hw by run.
  destruct (@index_file_round_trip ref_library cfg_plain
              index_codec_round_trip _ _ _ _ _ _ _ _ _ _ _ Hw)
    as (Hr & _ & Hothers & _).
  split_and!; [exact Hw | exact Hr |].
  rewrite Hothers by discriminate. apply lookup_singleton_eq.
Defined.

Lemma corrupt_index_fails_read_witness :
  fst (read_file cfg_plain "db" false fs_corrupt) = Ok doc_abc
  ∧ partial_read cfg_plain "db" "b" false fs_corrupt =
      (Raise JSONDecodeError, fs_corrupt).
Proof.
  assert (fst (read_file cfg_plain "db" false fs_corrupt) = Ok doc_abc) as Hd
    by run.
  split; [exact Hd|].
  apply (@corrupt_index_fails_read ref_library ref_scanner cfg_plain "db" "b"
           false fs_corrupt doc_abc (Utf8.encode "{") Hd); run.
Defined.

Lemma scan_writes_before_decoding_witness :
  partial_read cfg_plain "db" "b" false fs_bad =
    (Raise JSONDecodeError,
     with_index cfg_plain "db" {[ "b" := entry_bad_b ]} fs_bad)
  ∧ fst (read_index_file cfg_plain "db"
           (snd (partial_read cfg_plain "db" "b" false fs_bad))) =
      Ok {[ "b" := entry_bad_b ]}.
Proof.
  destruct (@scan_writes_before_decoding ref_library ref_scanner cfg_plain
              index_codec_round_trip "db" "b" false fs_bad doc_bad ∅ 14)
    as [Hr Hi];
    [run | run | | run_neq | run | run_neq | run |].
  { intros e He. rewrite lookup_empty in He. discriminate He. }
  split; [run_from Hr | run_from Hi].
Defined.

Lemma key_at_end_raises_index_error_witness :
  len doc_cut = 13
  ∧ find_outermost_json_key_index doc_cut (json_key_of "b") = 9
  ∧ partial_read cfg_plain "db" "b" false fs_cut = (Raise IndexError, fs_cut).
Proof.
  split_and!; [run | run |].
  apply (@key_at_end_raises_index_error ref_library ref_scanner cfg_plain
           "db" "b" false fs_cut doc_cut ∅); [run | run | | run_neq |].
  - intros e He. rewrite lookup_empty in He. discriminate He.
  - vm_compute. discriminate.
Defined.

(** The read that follows the write of the scenario. *)
Lemma partial_read_after_partial_write_witness :
  partial_write cfg_plain (with_value handle_abc_b value_x9) fs_abc_indexed =
    (Ok (), fs_x9)
  ∧ partial_serialize cfg_plain value_x9 = Ok (json_text "{'x': [9]}")
  ∧ reread cfg_plain doc_x9 = doc_x9
  ∧ partial_read cfg_plain "db" "b" false fs_x9 = (Ok value_x9, fs_x9).
Proof.
  assert (partial_serialize cfg_plain value_x9 = Ok (json_text "{'x': [9]}"))
    as Hser by run.
  split_and!; [exact write_abc_x9 | exact Hser | run |].
  pose proof (@partial_read_after_partial_write ref_library ref_scanner
                cfg_plain index_codec_round_trip utf8_decode_encode
                stored_round_trip (with_value handle_abc_b value_x9) false
                fs_abc_indexed fs_x9 (json_text "{'x': [9]}") write_abc_x9
                Hser) as Hr.
  lapply Hr; [intros Hr'; run_from Hr' | cbv zeta; run].
Defined.

(** A dump of one line under a handle indented by two tabs. *)
Lemma reindent_keeps_witness :
  reindent 2 (String "009" EmptyString) (json_text "{'x': [9]}") =
    json_text "{'x': [9]}".
Proof.
  apply reindent_keeps. left. intros i.
  do 10 (destruct i as [|i]; [discriminate|]). discriminate.
Defined.

(** With the index of the scenario, the scanner that finds nothing returns the
    value of [b] all the same; without it, it finds no key. *)
Lemma index_hit_skips_scan_witness :
  @partial_read ref_library blind_scanner cfg_plain "db" "b" false fs_abc =
    (Raise KeyError, fs_abc)
  ∧ @partial_read ref_library blind_scanner cfg_plain "db" "b" false
      fs_abc_indexed = (Ok value_x123, fs_abc_indexed).
Proof.
  split; [run|].
  destruct (@index_hit_skips_scan ref_library ref_scanner blind_scanner
              cfg_plain "db" "b" false fs_abc_indexed doc_abc
              {[ "b" := entry_abc_b ]} entry_abc_b) as [Hsame _];
    [run | run | apply lookup_singleton_eq | vm_compute; reflexivity |].
  rewrite <- Hsame. run.
Defined.

End MoreRuns.
